(** * labeler: the glob-rule evaluator and the label run of src/labeler.ts

    A shallow embedding of [src/labeler.ts].  The evaluator
    ([checkGlobs], [checkMatch], [checkAll], [checkAny], [isMatchAll],
    [isMatchAny], [toMatchers], [toMatchConfig]) is embedded call by call,
    together with the effects the source performs on the way: every
    [core.debug] line, every [new Minimatch(g)] and every
    [matcher.match(file)].  The configuration loader
    ([getLabelGlobMapFromObject]) and the driver ([run]) are embedded over
    an explicit record of the collaborators they call. *)

From Stdlib Require Import String Ascii List Bool ZArith Lia DecimalString.
Import ListNotations.

Local Open Scope string_scope.
Local Open Scope list_scope.

(** String concatenation, JavaScript's [+] on strings and template
    literals. *)
Infix "^^" := String.append (at level 60, right associativity).

(** The double-quote character and a word written between two of them,
    as the debug messages of [checkAny] and [checkAll] have it. *)
Definition dquote : string := String (ascii_of_nat 34) EmptyString.
Definition quoted (w : string) : string := dquote ^^ w ^^ dquote.

(* ===================================================================== *)
(** * Data model *)
(* ===================================================================== *)

(** [type MatchRule = { and?: string[]; or?: string[] }] *)
Record MatchRule : Type := mkMatchRule {
  and_ : option (list string);
  or_ : option (list string)
}.

(** [string[] | MatchRule], the type of the [all] and [any] fields. *)
Inductive GlobsOrRule : Type :=
| Globs (globs : list string)
| Rule (rule : MatchRule).

(** [interface MatchConfig { all?: ...; any?: ... }] *)
Record MatchConfig : Type := mkMatchConfig {
  all : option GlobsOrRule;
  any : option GlobsOrRule
}.

(** [type StringOrMatchConfig = string | MatchConfig] *)
Inductive StringOrMatchConfig : Type :=
| OfString (s : string)
| OfMatchConfig (c : MatchConfig).

(** [type GlobalMatchConfig = StringOrMatchConfig[]] *)
Definition GlobalMatchConfig : Type := list StringOrMatchConfig.

(** The part of minimatch's [IMinimatch] the source uses: the fields
    [pattern] and [negate] (read by [printPattern]) and the method
    [match]. *)
Record IMinimatch : Type := mkMinimatch {
  pattern : string;
  negate : bool;
  match_ : string -> bool
}.

(* ===================================================================== *)
(** * Effects: the trace of observable calls *)
(* ===================================================================== *)

(** One constructor per kind of call that leaves the module. *)
Inductive Event : Type :=
| Debug (msg : string)                         (* core.debug(msg) *)
| ConsoleLog (msg : string)                    (* console.log(msg) *)
| CoreError (msg : string)                     (* core.error(error) *)
| SetFailed (msg : string)                     (* core.setFailed(error.message) *)
| NewMinimatch (glob : string)                 (* new Minimatch(glob) *)
| CallMatch (matcher : IMinimatch) (file : string) (* matcher.match(file) *)
| AddLabels (prNumber : Z) (labels : list string)  (* issues.addLabels *)
| RemoveLabel (prNumber : Z) (label : string).     (* issues.removeLabel *)

Definition Trace : Type := list Event.

(** Computations that return a value and append to the trace. *)
Definition M (A : Type) : Type := A * Trace.

Definition ret {A} (a : A) : M A := (a, []).

Definition bind {A B} (m : M A) (k : A -> M B) : M B :=
  let (a, t1) := m in
  let (b, t2) := k a in
  (b, t1 ++ t2).

Definition emit (e : Event) : M unit := (tt, [e]).

Definition value {A} (m : M A) : A := fst m.
Definition trace {A} (m : M A) : Trace := snd m.

Declare Scope labeler_scope.
Delimit Scope labeler_scope with labeler.

Notation "x <- m ;; k" := (bind m (fun x => k))
  (at level 100, m at next level, right associativity) : labeler_scope.
Notation "m ;; k" := (bind m (fun _ => k))
  (at level 100, right associativity) : labeler_scope.

Local Open Scope labeler_scope.

(** [core.debug(msg)] *)
Definition debug (msg : string) : M unit := emit (Debug msg).

(** [matcher.match(file)] *)
Definition callMatch (matcher : IMinimatch) (file : string) : M bool :=
  emit (CallMatch matcher file) ;; ret (match_ matcher file).

(* ===================================================================== *)
(** * The evaluator *)
(* ===================================================================== *)

(** [toMatchConfig]: a bare string becomes [{ any: [config] }], an object
    is returned as it is. *)
Definition toMatchConfig (config : StringOrMatchConfig) : MatchConfig :=
  match config with
  | OfString s => {| all := None; any := Some (Globs [s]) |}
  | OfMatchConfig c => c
  end.

(** [printPattern] *)
Definition printPattern (matcher : IMinimatch) : string :=
  (if negate matcher then "!" else EmptyString) ^^ pattern matcher.

Section Evaluator.

(** The constructor of the minimatch library, [new Minimatch(g)], and
    [JSON.stringify] on a rule entry; neither is code of this
    repository.  Both are taken as functions that return: a constructor
    that throws is not part of this model. *)
Variable Minimatch : string -> IMinimatch.
Variable JSON_stringify : StringOrMatchConfig -> string.

(** The loop of [isMatchAll]; the code after the loop is the [nil] case. *)
Fixpoint isMatchAll_loop (changedFile : string) (matchers : list IMinimatch)
  : M bool :=
  match matchers with
  | [] =>
      debug "   all patterns matched" ;;
      ret true
  | matcher :: rest =>
      debug ("   - " ^^ printPattern matcher) ;;
      b <- callMatch matcher changedFile ;;
      if negb b then
        debug ("   " ^^ printPattern matcher ^^ " did not match") ;;
        ret false
      else isMatchAll_loop changedFile rest
  end.

Definition isMatchAll (changedFile : string) (matchers : list IMinimatch)
  : M bool :=
  debug ("    matching all patterns against file " ^^ changedFile) ;;
  isMatchAll_loop changedFile matchers.

Fixpoint isMatchAny_loop (changedFile : string) (matchers : list IMinimatch)
  : M bool :=
  match matchers with
  | [] =>
      debug "   no patterns matched" ;;
      ret false
  | matcher :: rest =>
      debug ("   - " ^^ printPattern matcher) ;;
      b <- callMatch matcher changedFile ;;
      if b then
        debug ("   " ^^ printPattern matcher ^^ " matched") ;;
        ret true
      else isMatchAny_loop changedFile rest
  end.

(** [isMatchAny]: [matchers.length === 0] returns [true] before anything
    is logged. *)
Definition isMatchAny (changedFile : string) (matchers : list IMinimatch)
  : M bool :=
  if Nat.eqb (length matchers) 0 then ret true
  else
    debug ("    matching any patterns against file " ^^ changedFile) ;;
    isMatchAny_loop changedFile matchers.

(** The loop of [checkAny]; [&&] evaluates [isMatchAny] only when
    [isMatchAll] returned [true]. *)
Fixpoint checkAny_loop (changedFiles : list string)
    (matcherAll matcherAny : list IMinimatch) : M bool :=
  match changedFiles with
  | [] =>
      debug ("  " ^^ quoted "any" ^^ " patterns did not match any files") ;;
      ret false
  | changedFile :: rest =>
      a <- isMatchAll changedFile matcherAll ;;
      c <- (if a then isMatchAny changedFile matcherAny else ret false) ;;
      if c then
        debug ("  " ^^ quoted "any" ^^ " patterns matched against " ^^ changedFile) ;;
        ret true
      else checkAny_loop rest matcherAll matcherAny
  end.

Definition checkAny (changedFiles : list string)
    (matcherAll matcherAny : list IMinimatch) : M bool :=
  debug ("  checking " ^^ quoted "any" ^^ " patterns with " ^^ quoted "all"
         ^^ " matchers") ;;
  checkAny_loop changedFiles matcherAll matcherAny.

(** The two loops of [checkAll]. *)
Fixpoint checkAll_loop1 (changedFiles : list string)
    (matcherAll : list IMinimatch) (after : M bool) : M bool :=
  match changedFiles with
  | [] => after
  | changedFile :: rest =>
      a <- isMatchAll changedFile matcherAll ;;
      if negb a then
        debug ("  " ^^ quoted "all" ^^ " patterns did not match against "
               ^^ changedFile) ;;
        ret false
      else checkAll_loop1 rest matcherAll after
  end.

Fixpoint checkAll_loop2 (changedFiles : list string)
    (matcherAny : list IMinimatch) : M bool :=
  match changedFiles with
  | [] =>
      debug ("  " ^^ quoted "all" ^^ " patterns matched all files") ;;
      ret true
  | changedFile :: rest =>
      a <- isMatchAny changedFile matcherAny ;;
      if negb a then
        debug ("  " ^^ quoted "all" ^^ " patterns did not match against "
               ^^ changedFile) ;;
        ret false
      else checkAll_loop2 rest matcherAny
  end.

Definition checkAll (changedFiles : list string)
    (matcherAll matcherAny : list IMinimatch) : M bool :=
  debug (" checking " ^^ quoted "all" ^^ " patterns with " ^^ quoted "all"
         ^^ " matchers") ;;
  checkAll_loop1 changedFiles matcherAll
    (debug (" checking " ^^ quoted "all" ^^ " patterns with " ^^ quoted "any"
            ^^ " matchers") ;;
     checkAll_loop2 changedFiles matcherAny).

(** [globs.map((g) => new Minimatch(g))] *)
Fixpoint newMatchers (globs : list string) : M (list IMinimatch) :=
  match globs with
  | [] => ret []
  | g :: rest =>
      emit (NewMinimatch g) ;;
      ms <- newMatchers rest ;;
      ret (Minimatch g :: ms)
  end.

(** [toMatchers]: the pair [(matcherAll, matcherAny)]. *)
Definition toMatchers (config : GlobsOrRule)
  : M (list IMinimatch * list IMinimatch) :=
  match config with
  | Globs globs =>
      ms <- newMatchers globs ;;
      ret ([] ++ ms, [])
  | Rule r =>
      matcherAll <- match and_ r with
                    | Some globs => ms <- newMatchers globs ;; ret ([] ++ ms)
                    | None => ret []
                    end ;;
      matcherAny <- match or_ r with
                    | Some globs => ms <- newMatchers globs ;; ret ([] ++ ms)
                    | None => ret []
                    end ;;
      ret (matcherAll, matcherAny)
  end.

(** The [any] half of [checkMatch]. *)
Definition checkMatch_any (changedFiles : list string)
    (matchConfig : MatchConfig) : M bool :=
  match any matchConfig with
  | Some config =>
      ms <- toMatchers config ;;
      b <- checkAny changedFiles (fst ms) (snd ms) ;;
      if negb b then ret false else ret true
  | None => ret true
  end.

(** [checkMatch] *)
Definition checkMatch (changedFiles : list string)
    (matchConfig : MatchConfig) : M bool :=
  match all matchConfig with
  | Some config =>
      ms <- toMatchers config ;;
      b <- checkAll changedFiles (fst ms) (snd ms) ;;
      if negb b then ret false else checkMatch_any changedFiles matchConfig
  | None => checkMatch_any changedFiles matchConfig
  end.

(** The work [checkGlobs] does for one entry of [globs]. *)
Definition checkEntry (changedFiles : list string)
    (glob : StringOrMatchConfig) : M bool :=
  debug (" checking pattern " ^^ JSON_stringify glob) ;;
  checkMatch changedFiles (toMatchConfig glob).

(** [checkGlobs] *)
Fixpoint checkGlobs (changedFiles : list string) (globs : GlobalMatchConfig)
  : M bool :=
  match globs with
  | [] => ret false
  | glob :: rest =>
      b <- checkEntry changedFiles glob ;;
      if b then ret true else checkGlobs changedFiles rest
  end.

End Evaluator.

(* ===================================================================== *)
(** * Loading the configuration *)
(* ===================================================================== *)

(** What a label can be mapped to in the object [yaml.load] returns.  An
    array is taken at the element type the source declares for it,
    [StringOrMatchConfig].  At run time the loader accepts any array; an
    array with an entry of another shape (such as [null]), on which the
    evaluation would throw, is outside this model. *)
Inductive ConfigValue : Type :=
| VString (s : string)
| VArray (a : list StringOrMatchConfig)
| VNumber (n : Z)
| VBoolean (b : bool)
| VNull
| VObject (fieldNames : list string).

(** The configuration object: its enumerable keys in [for ... in] order,
    each with its value. *)
Definition ConfigObject : Type := list (string * ConfigValue).

(** [configObject[label]] *)
Fixpoint prop (configObject : ConfigObject) (label : string)
  : option ConfigValue :=
  match configObject with
  | [] => None
  | (k, v) :: rest => if String.eqb k label then Some v else prop rest label
  end.

(** The keys a [for (const label in configObject)] loop visits. *)
Definition keys (configObject : ConfigObject) : list string :=
  map fst configObject.

(** [Map<string, StringOrMatchConfig[]>]: the entries in insertion order. *)
Definition LabelGlobs : Type := list (string * GlobalMatchConfig).

(** [Map.prototype.set]: an existing key keeps its place and takes the new
    value, a new key goes to the end. *)
Fixpoint Map_set (m : LabelGlobs) (label : string) (globs : GlobalMatchConfig)
  : LabelGlobs :=
  match m with
  | [] => [(label, globs)]
  | (k, v) :: rest =>
      if String.eqb k label then (k, globs) :: rest
      else (k, v) :: Map_set rest label globs
  end.

(** [Map.prototype.get] *)
Fixpoint Map_get (m : LabelGlobs) (label : string) : option GlobalMatchConfig :=
  match m with
  | [] => None
  | (k, v) :: rest => if String.eqb k label then Some v else Map_get rest label
  end.

(** A call either returns or throws an [Error] with a message. *)
Inductive result (A : Type) : Type :=
| Ok (a : A)
| Throw (message : string).
Arguments Ok {A} a.
Arguments Throw {A} message.

(** The message of the error [getLabelGlobMapFromObject] throws. *)
Definition unexpectedType (label : string) : string :=
  "found unexpected type for label " ^^ label
  ^^ " (should be string or array of globs)".

Fixpoint getLabelGlobMapFromObject_loop (configObject : ConfigObject)
    (labels : list string) (labelGlobs : LabelGlobs) : result LabelGlobs :=
  match labels with
  | [] => Ok labelGlobs
  | label :: rest =>
      match prop configObject label with
      | Some (VString s) =>
          getLabelGlobMapFromObject_loop configObject rest
            (Map_set labelGlobs label [OfString s])
      | Some (VArray a) =>
          getLabelGlobMapFromObject_loop configObject rest
            (Map_set labelGlobs label a)
      | _ => Throw (unexpectedType label)
      end
  end.

(** [getLabelGlobMapFromObject] *)
Definition getLabelGlobMapFromObject (configObject : ConfigObject)
  : result LabelGlobs :=
  getLabelGlobMapFromObject_loop configObject (keys configObject) [].

(* ===================================================================== *)
(** * The driver *)
(* ===================================================================== *)

(** Computations that append to the trace and either return or throw. *)
Definition X (A : Type) : Type := M (result A).

Definition retX {A} (a : A) : X A := ret (Ok a).

Definition bindX {A B} (m : X A) (k : A -> X B) : X B :=
  r <- m ;;
  match r with
  | Ok a => k a
  | Throw e => ret (Throw e)
  end.

(** A computation that cannot throw. *)
Definition lift {A} (m : M A) : X A := a <- m ;; ret (Ok a).

(** The outcome of a collaborator's call. *)
Definition call {A} (r : result A) : X A := ret r.

Notation "x <~ m ;; k" := (bindX m (fun x => k))
  (at level 100, m at next level, right associativity) : labeler_scope.
Notation "m ;;; k" := (bindX m (fun _ => k))
  (at level 100, right associativity) : labeler_scope.

(** What [run] receives from outside the module: the libraries it calls
    and the answers of the remote host.  [pulls_get] gives the names of
    [pullRequest.labels], [paginate_listFiles] the [filename] of every
    listed file, [repos_getContent] the decoded content. *)
Record Collaborators : Type := mkCollaborators {
  Minimatch : string -> IMinimatch;
  JSON_stringify : StringOrMatchConfig -> string;
  core_getInput : string -> bool -> result string;
  payload_pull_request : option Z;
  github_getOctokit : string -> result unit;
  pulls_get : Z -> result (list string);
  paginate_listFiles : Z -> result (list string);
  repos_getContent : string -> result string;
  yaml_load : string -> result ConfigObject;
  issues_addLabels : Z -> list string -> result unit;
  issues_removeLabel : Z -> string -> result unit
}.

(** A number in a template literal. *)
Definition numberToString (n : Z) : string :=
  DecimalString.NilZero.string_of_int (Z.to_int n).

Section Driver.

Variable w : Collaborators.

(** [getPrNumber] *)
Definition getPrNumber : option Z := payload_pull_request w.

Fixpoint debugFiles (changedFiles : list string) : M unit :=
  match changedFiles with
  | [] => ret tt
  | file :: rest => debug ("  " ^^ file) ;; debugFiles rest
  end.

(** [getChangedFiles] *)
Definition getChangedFiles (prNumber : Z) : X (list string) :=
  changedFiles <~ call (paginate_listFiles w prNumber) ;;
  lift (debug "found changed files:") ;;;
  lift (debugFiles changedFiles) ;;;
  retX changedFiles.

(** [fetchContent] *)
Definition fetchContent (repoPath : string) : X string :=
  call (repos_getContent w repoPath).

(** [getLabelGlobs] *)
Definition getLabelGlobs (configurationPath : string) : X LabelGlobs :=
  configurationContent <~ fetchContent configurationPath ;;
  configObject <~ call (yaml_load w configurationContent) ;;
  call (getLabelGlobMapFromObject configObject).

(** [addLabels] *)
Definition addLabels (prNumber : Z) (labels : list string) : X unit :=
  lift (emit (AddLabels prNumber labels)) ;;;
  call (issues_addLabels w prNumber labels).

(** The requests [labels.map(...)] issues, and what [Promise.all] settles
    to.  [Promise.all] rejects with the rejection that settles first in
    time; the model takes the first one in list order, so only that some
    request's error is thrown is meaningful, not which. *)
Fixpoint removeLabels_requests (prNumber : Z) (labels : list string)
  : M (result unit) :=
  match labels with
  | [] => ret (Ok tt)
  | label :: rest =>
      emit (RemoveLabel prNumber label) ;;
      others <- removeLabels_requests prNumber rest ;;
      match issues_removeLabel w prNumber label with
      | Ok _ => ret others
      | Throw e => ret (Throw e)
      end
  end.

(** [removeLabels] *)
Definition removeLabels (prNumber : Z) (labels : list string) : X unit :=
  removeLabels_requests prNumber labels.

(** The [for] loop of [run] over [labelGlobs.entries()]: the pair
    [(labels, labelsToRemove)] it leaves. *)
Fixpoint run_loop (changedFiles : list string) (prLabels : list string)
    (entries : LabelGlobs) (labels labelsToRemove : list string)
  : M (list string * list string) :=
  match entries with
  | [] => ret (labels, labelsToRemove)
  | (label, globs) :: rest =>
      debug ("processing " ^^ label) ;;
      b <- checkGlobs (Minimatch w) (JSON_stringify w) changedFiles globs ;;
      if b then
        run_loop changedFiles prLabels rest (labels ++ [label]) labelsToRemove
      else
        match find (fun l => String.eqb l label) prLabels with
        | Some _ =>
            run_loop changedFiles prLabels rest labels
              (labelsToRemove ++ [label])
        | None =>
            run_loop changedFiles prLabels rest labels labelsToRemove
        end
  end.

(** [!!s] for a string [s]. *)
Definition truthy (s : string) : bool := negb (String.eqb s EmptyString).

(** The body of the [try] block of [run]. *)
Definition run_try : X unit :=
  token <~ call (core_getInput w "repo-token" true) ;;
  configPath <~ call (core_getInput w "configuration-path" true) ;;
  syncInput <~ call (core_getInput w "sync-labels" false) ;;
  let syncLabels := truthy syncInput in
  match getPrNumber with
  | None =>
      lift (emit (ConsoleLog
        "Could not get pull request number from context, exiting"))
  | Some prNumber =>
      if Z.eqb prNumber 0 then
        lift (emit (ConsoleLog
          "Could not get pull request number from context, exiting"))
      else
        call (github_getOctokit w token) ;;;
        prLabels <~ call (pulls_get w prNumber) ;;
        lift (debug ("fetching changed files for pr #"
                     ^^ numberToString prNumber)) ;;;
        changedFiles <~ getChangedFiles prNumber ;;
        labelGlobs <~ getLabelGlobs configPath ;;
        ls <~ lift (run_loop changedFiles prLabels labelGlobs [] []) ;;
        let labels := fst ls in
        let labelsToRemove := snd ls in
        (if Nat.ltb 0 (length labels) then addLabels prNumber labels
         else retX tt) ;;;
        (if syncLabels && negb (Nat.eqb (length labelsToRemove) 0)
         then removeLabels prNumber labelsToRemove
         else retX tt)
  end.

(** [run]: the [catch] clause reports the error and fails the run. *)
Definition run : M unit :=
  r <- run_try ;;
  match r with
  | Ok _ => ret tt
  | Throw message => emit (CoreError message) ;; emit (SetFailed message)
  end.

End Driver.

(* ===================================================================== *)
(** * A reference matcher for the examples *)
(* ===================================================================== *)

(** The minimatch library is not part of the repository.  The matcher
    below covers what section 4.2 of the specification names and the test
    suite uses: literal characters, [?], [*] within one path segment, [**]
    across segments, and a leading [!] for negation.  Only the examples
    use it; every theorem is stated for an arbitrary [Minimatch]. *)
Definition isSlash (c : ascii) : bool := Ascii.eqb c "/".
Definition isStar (c : ascii) : bool := Ascii.eqb c "*".

Fixpoint starSegment (k : list ascii -> bool) (s : list ascii) : bool :=
  k s || match s with
         | [] => false
         | c :: s' => negb (isSlash c) && starSegment k s'
         end.

Fixpoint starAny (k : list ascii -> bool) (s : list ascii) : bool :=
  k s || match s with
         | [] => false
         | _ :: s' => starAny k s'
         end.

(** Modelled from the spec: the glob language of minimatch, absent from
    the repository.  Of what section 4.2 names it has literal characters,
    [?], [*] and [**] only: character classes, brace and extglob
    alternation and minimatch's rules for dot files and for [**] at depth
    zero are not modelled. *)
Fixpoint glob (p : list ascii) : list ascii -> bool :=
  match p with
  | [] => fun s => match s with [] => true | _ :: _ => false end
  | c :: p' =>
      if isStar c then
        match p' with
        | c2 :: p'' =>
            if isStar c2 then starAny (glob p'') else starSegment (glob p')
        | [] => starSegment (glob p')
        end
      else if Ascii.eqb c "?" then
        fun s => match s with
                 | [] => false
                 | x :: s' => negb (isSlash x) && glob p' s'
                 end
      else
        fun s => match s with
                 | [] => false
                 | x :: s' => Ascii.eqb x c && glob p' s'
                 end
  end.

Definition globString (p : string) (file : string) : bool :=
  glob (list_ascii_of_string p) (list_ascii_of_string file).

(** Modelled from the spec: [new Minimatch(g)], absent from the
    repository; one leading [!] negates the match of the remainder
    (minimatch toggles the negation once per leading [!]). *)
Definition refMinimatch (g : string) : IMinimatch :=
  match g with
  | String "!" rest =>
      {| pattern := rest; negate := true;
         match_ := fun file => negb (globString rest file) |}
  | _ => {| pattern := g; negate := false; match_ := globString g |}
  end.

(** A stand-in for [JSON.stringify] in the examples; it only feeds the
    debug lines. *)
Definition refStringify (glob : StringOrMatchConfig) : string :=
  match glob with
  | OfString s => quoted s
  | OfMatchConfig _ => "{...}"
  end.

(** The boolean [checkGlobs] returns with the reference matcher. *)
Definition refCheck (changedFiles : list string) (globs : GlobalMatchConfig)
  : bool :=
  value (checkGlobs refMinimatch refStringify changedFiles globs).

Definition allOf (globs : list string) : StringOrMatchConfig :=
  OfMatchConfig {| all := Some (Globs globs); any := None |}.
Definition anyOf (globs : list string) : StringOrMatchConfig :=
  OfMatchConfig {| all := None; any := Some (Globs globs) |}.
Definition allRule (r : MatchRule) : StringOrMatchConfig :=
  OfMatchConfig {| all := Some (Rule r); any := None |}.
Definition anyRule (r : MatchRule) : StringOrMatchConfig :=
  OfMatchConfig {| all := None; any := Some (Rule r) |}.

(* ===================================================================== *)
(** * Vocabulary of the statements *)
(* ===================================================================== *)

(** [file] passes every matcher of the list. *)
Definition matchesAll (file : string) (matchers : list IMinimatch) : bool :=
  forallb (fun m => match_ m file) matchers.

(** [file] passes at least one matcher of the list. *)
Definition matchesSome (file : string) (matchers : list IMinimatch) : bool :=
  existsb (fun m => match_ m file) matchers.

(** The matchers of an optional glob list: none when the field is absent. *)
Definition optMatchers (Minimatch : string -> IMinimatch)
    (globs : option (list string)) : list IMinimatch :=
  match globs with
  | Some l => map Minimatch l
  | None => []
  end.

(** Events of the matching engine: a matcher is constructed or run. *)
Definition isMatcherEvent (e : Event) : bool :=
  match e with
  | NewMinimatch _ | CallMatch _ _ => true
  | _ => false
  end.

(** Events that change the labels of the pull request. *)
Definition isMutation (e : Event) : bool :=
  match e with
  | AddLabels _ _ | RemoveLabel _ _ => true
  | _ => false
  end.

(** The sequence a well-shaped label value is loaded as. *)
Definition loadedAs (v : ConfigValue) : option GlobalMatchConfig :=
  match v with
  | VString s => Some [OfString s]
  | VArray a => Some a
  | _ => None
  end.

(** Events the evaluator can produce: debug lines and matcher calls. *)
Definition isEvaluatorEvent (e : Event) : bool :=
  match e with
  | Debug _ | NewMinimatch _ | CallMatch _ _ => true
  | _ => false
  end.

(** The configuration object a run reads: the document at the path given
    by the [configuration-path] input, fetched and parsed. *)
Definition configurationOf (w : Collaborators) : option ConfigObject :=
  match core_getInput w "configuration-path" true with
  | Ok configPath =>
      match repos_getContent w configPath with
      | Ok content =>
          match yaml_load w content with
          | Ok configObject => Some configObject
          | Throw _ => None
          end
      | Throw _ => None
      end
  | Throw _ => None
  end.

(** The label map a run evaluates, when loading succeeds. *)
Definition loadedLabelGlobs (w : Collaborators) : option LabelGlobs :=
  match configurationOf w with
  | Some configObject =>
      match getLabelGlobMapFromObject configObject with
      | Ok labelGlobs => Some labelGlobs
      | Throw _ => None
      end
  | None => None
  end.

(** A label's value has one of the two accepted shapes. *)
Definition wellShaped (configObject : ConfigObject) (label : string) : Prop :=
  exists v globs, prop configObject label = Some v /\ loadedAs v = Some globs.

(** A run for the examples: pull request 7, every remote call succeeds. *)
Definition exampleRun (syncInput : string) (prLabels changedFiles : list string)
    (configObject : ConfigObject) : Collaborators :=
  {| Minimatch := refMinimatch;
     JSON_stringify := refStringify;
     core_getInput := fun name _ =>
       if String.eqb name "repo-token" then Ok "token"
       else if String.eqb name "configuration-path"
            then Ok ".github/labeler.yml"
       else if String.eqb name "sync-labels" then Ok syncInput
       else Ok EmptyString;
     payload_pull_request := Some 7%Z;
     github_getOctokit := fun _ => Ok tt;
     pulls_get := fun _ => Ok prLabels;
     paginate_listFiles := fun _ => Ok changedFiles;
     repos_getContent := fun _ => Ok "docs: '*.md'";
     yaml_load := fun _ => Ok configObject;
     issues_addLabels := fun _ _ => Ok tt;
     issues_removeLabel := fun _ _ => Ok tt |}.

Definition exampleConfig : ConfigObject :=
  [("docs", VString "*.md"); ("source", VArray [anyOf ["src/**"]])].

Definition malformedConfig : ConfigObject :=
  [("docs", VString "*.md"); ("priority", VNumber 3);
   ("source", VArray [anyOf ["src/**"]])].

(** A trace that only the evaluator wrote. *)
Definition evaluatorOnly (t : Trace) : Prop :=
  Forall (fun e => isEvaluatorEvent e = true) t.

(** A run gets as far as evaluating the rules: the inputs are read, the
    pull request has a number that is not [0], the client is built, and
    the pull request, the changed files and the configuration are
    fetched and loaded. *)
Definition reachesEvaluation (w : Collaborators) (prNumber : Z)
    (syncInput : string) (prLabels changedFiles : list string)
    (labelGlobs : LabelGlobs) : Prop :=
  (exists token, core_getInput w "repo-token" true = Ok token
                 /\ github_getOctokit w token = Ok tt)
  /\ core_getInput w "sync-labels" false = Ok syncInput
  /\ payload_pull_request w = Some prNumber
  /\ prNumber <> 0%Z
  /\ pulls_get w prNumber = Ok prLabels
  /\ paginate_listFiles w prNumber = Ok changedFiles
  /\ loadedLabelGlobs w = Some labelGlobs.

(** The boolean [run] gets from [checkGlobs] for a label's rule set. *)
Definition rulesMatch (w : Collaborators) (changedFiles : list string)
    (globs : GlobalMatchConfig) : bool :=
  value (checkGlobs (Minimatch w) (JSON_stringify w) changedFiles globs).

(** [pullRequest.labels.find((l) => l.name === label)] is truthy. *)
Definition isCarried (prLabels : list string) (label : string) : bool :=
  match find (fun l => String.eqb l label) prLabels with
  | Some _ => true
  | None => false
  end.

(** The configured labels whose rule set matches, in configuration order. *)
Definition labelsToAdd (w : Collaborators) (changedFiles : list string)
    (labelGlobs : LabelGlobs) : list string :=
  map fst (filter (fun entry => rulesMatch w changedFiles (snd entry))
             labelGlobs).

(** The configured labels whose rule set does not match and that the pull
    request carries, in configuration order. *)
Definition labelsToDrop (w : Collaborators) (changedFiles prLabels : list string)
    (labelGlobs : LabelGlobs) : list string :=
  map fst (filter (fun entry =>
                     negb (rulesMatch w changedFiles (snd entry))
                     && isCarried prLabels (fst entry))
             labelGlobs).

(** The answer to the [addLabels] request of a run, [Ok] when there is
    nothing to add and no request is made. *)
Definition addOutcome (w : Collaborators) (prNumber : Z) (labels : list string)
  : result unit :=
  if Nat.ltb 0 (length labels) then issues_addLabels w prNumber labels
  else Ok tt.
(** [core.error] and [core.setFailed], the two calls of the [catch]
    clause. *)
Definition isReport (e : Event) : bool :=
  match e with
  | CoreError _ | SetFailed _ => true
  | _ => false
  end.

(** The line [run] logs when the payload has no pull request. *)
Definition noPullRequestLine : string :=
  "Could not get pull request number from context, exiting".

(** The same collaborators with another payload. *)
Definition withPayload (w : Collaborators) (payload : option Z)
  : Collaborators :=
  mkCollaborators (Minimatch w) (JSON_stringify w) (core_getInput w)
    payload (github_getOctokit w) (pulls_get w) (paginate_listFiles w)
    (repos_getContent w) (yaml_load w) (issues_addLabels w)
    (issues_removeLabel w).

(** The same collaborators with another answer for one input. *)
Definition withInput (w : Collaborators) (name : string)
    (answer : result string) : Collaborators :=
  mkCollaborators (Minimatch w) (JSON_stringify w)
    (fun n required =>
       if String.eqb n name then answer else core_getInput w n required)
    (payload_pull_request w) (github_getOctokit w) (pulls_get w)
    (paginate_listFiles w) (repos_getContent w) (yaml_load w)
    (issues_addLabels w) (issues_removeLabel w).

(** The same collaborators with another answer to [issues.addLabels]. *)
Definition withAddLabels (w : Collaborators) (answer : result unit)
  : Collaborators :=
  mkCollaborators (Minimatch w) (JSON_stringify w) (core_getInput w)
    (payload_pull_request w) (github_getOctokit w) (pulls_get w)
    (paginate_listFiles w) (repos_getContent w) (yaml_load w)
    (fun _ _ => answer) (issues_removeLabel w).

(** Pull request 7 carries [docs], one source file changed, [sync-labels]
    is set. *)
Definition sourceRun : Collaborators :=
  exampleRun "true" ["docs"] ["src/a.ts"] exampleConfig.

(** What [exampleConfig] is loaded as. *)
Definition exampleLabelGlobs : LabelGlobs :=
  [("docs", [OfString "*.md"]); ("source", [anyOf ["src/**"]])].

(* ===================================================================== *)
(** * The trace monad *)
(* ===================================================================== *)

Lemma value_bind {A B} (m : M A) (k : A -> M B) :
  value (bind m k) = value (k (value m)).
Proof.
  unfold value, bind. destruct m as [a t1]. simpl.
  destruct (k a) as [b t2]. reflexivity.
Qed.

Lemma trace_bind {A B} (m : M A) (k : A -> M B) :
  trace (bind m k) = trace m ++ trace (k (value m)).
Proof.
  unfold value, trace, bind. destruct m as [a t1]. simpl.
  destruct (k a) as [b t2]. reflexivity.
Qed.

Lemma value_ret {A} (a : A) : value (ret a) = a.
Proof. reflexivity. Qed.

Lemma trace_ret {A} (a : A) : trace (ret a) = [].
Proof. reflexivity. Qed.

Ltac eval_value := repeat (rewrite value_bind || rewrite value_ret); cbn [negb].

(* ===================================================================== *)
(** * What each evaluator function returns *)
(* ===================================================================== *)

Section EvaluatorFacts.

Variable Minimatch : string -> IMinimatch.
Variable JSON_stringify : StringOrMatchConfig -> string.

Lemma callMatch_value matcher file :
  value (callMatch matcher file) = match_ matcher file.
Proof. reflexivity. Qed.

Lemma isMatchAll_loop_value file matchers :
  value (isMatchAll_loop file matchers) = matchesAll file matchers.
Proof.
  induction matchers as [|m rest IH]; [reflexivity|].
  cbn [isMatchAll_loop matchesAll forallb]. eval_value.
  rewrite callMatch_value. destruct (match_ m file); cbn [negb andb].
  - exact IH.
  - eval_value. reflexivity.
Qed.

Lemma isMatchAll_value file matchers :
  value (isMatchAll file matchers) = matchesAll file matchers.
Proof. unfold isMatchAll. eval_value. apply isMatchAll_loop_value. Qed.

Lemma isMatchAny_loop_value file matchers :
  value (isMatchAny_loop file matchers) = matchesSome file matchers.
Proof.
  induction matchers as [|m rest IH]; [reflexivity|].
  cbn [isMatchAny_loop matchesSome existsb]. eval_value.
  rewrite callMatch_value. destruct (match_ m file); cbn [orb].
  - eval_value. reflexivity.
  - exact IH.
Qed.

(** [isMatchAny] is [true] on the empty list and a disjunction otherwise. *)
Lemma isMatchAny_value file matchers :
  value (isMatchAny file matchers) =
  match matchers with
  | [] => true
  | _ :: _ => matchesSome file matchers
  end.
Proof.
  unfold isMatchAny. destruct matchers as [|m rest]; [reflexivity|].
  cbn [length Nat.eqb]. eval_value. apply isMatchAny_loop_value.
Qed.

Lemma checkAny_loop_value files matcherAll matcherAny :
  value (checkAny_loop files matcherAll matcherAny) =
  existsb (fun f => matchesAll f matcherAll
                    && value (isMatchAny f matcherAny)) files.
Proof.
  induction files as [|f rest IH]; [reflexivity|].
  cbn [checkAny_loop existsb]. eval_value. rewrite isMatchAll_value.
  destruct (matchesAll f matcherAll); cbn [andb orb].
  - destruct (value (isMatchAny f matcherAny)); cbn [orb].
    + eval_value. reflexivity.
    + exact IH.
  - eval_value. exact IH.
Qed.

Lemma checkAny_value files matcherAll matcherAny :
  value (checkAny files matcherAll matcherAny) =
  existsb (fun f => matchesAll f matcherAll
                    && value (isMatchAny f matcherAny)) files.
Proof. unfold checkAny. eval_value. apply checkAny_loop_value. Qed.

Lemma checkAll_loop2_value files matcherAny :
  value (checkAll_loop2 files matcherAny) =
  forallb (fun f => value (isMatchAny f matcherAny)) files.
Proof.
  induction files as [|f rest IH]; [reflexivity|].
  cbn [checkAll_loop2 forallb]. eval_value.
  destruct (value (isMatchAny f matcherAny)); cbn [negb andb].
  - exact IH.
  - eval_value. reflexivity.
Qed.

Lemma checkAll_loop1_value files matcherAll after :
  value (checkAll_loop1 files matcherAll after) =
  forallb (fun f => matchesAll f matcherAll) files && value after.
Proof.
  induction files as [|f rest IH]; [reflexivity|].
  cbn [checkAll_loop1 forallb]. eval_value. rewrite isMatchAll_value.
  destruct (matchesAll f matcherAll); cbn [negb andb].
  - exact IH.
  - eval_value. reflexivity.
Qed.

Lemma checkAll_value files matcherAll matcherAny :
  value (checkAll files matcherAll matcherAny) =
  forallb (fun f => matchesAll f matcherAll) files
  && forallb (fun f => value (isMatchAny f matcherAny)) files.
Proof.
  unfold checkAll. eval_value. rewrite checkAll_loop1_value. eval_value.
  rewrite checkAll_loop2_value. reflexivity.
Qed.

Lemma newMatchers_value globs :
  value (newMatchers Minimatch globs) = map Minimatch globs.
Proof.
  induction globs as [|g rest IH]; [reflexivity|].
  cbn [newMatchers map]. eval_value. rewrite IH. reflexivity.
Qed.

Lemma toMatchers_value_Globs globs :
  value (toMatchers Minimatch (Globs globs)) = (map Minimatch globs, []).
Proof.
  unfold toMatchers. eval_value. rewrite newMatchers_value. reflexivity.
Qed.

Lemma toMatchers_value_Rule r :
  value (toMatchers Minimatch (Rule r)) =
  (match and_ r with Some globs => map Minimatch globs | None => [] end,
   match or_ r with Some globs => map Minimatch globs | None => [] end).
Proof.
  unfold toMatchers. eval_value.
  destruct (and_ r), (or_ r); eval_value; rewrite ?newMatchers_value;
    reflexivity.
Qed.

Lemma checkMatch_any_value files matchConfig :
  value (checkMatch_any Minimatch files matchConfig) =
  match any matchConfig with
  | Some config =>
      let ms := value (toMatchers Minimatch config) in
      value (checkAny files (fst ms) (snd ms))
  | None => true
  end.
Proof.
  unfold checkMatch_any. destruct (any matchConfig) as [config|];
    [|reflexivity].
  eval_value. cbv zeta.
  destruct (value (checkAny files _ _)); reflexivity.
Qed.

Lemma checkMatch_value files matchConfig :
  value (checkMatch Minimatch files matchConfig) =
  match all matchConfig with
  | Some config =>
      let ms := value (toMatchers Minimatch config) in
      value (checkAll files (fst ms) (snd ms))
  | None => true
  end
  && value (checkMatch_any Minimatch files matchConfig).
Proof.
  unfold checkMatch. destruct (all matchConfig) as [config|];
    [|reflexivity].
  eval_value. cbv zeta.
  destruct (value (checkAll files _ _)); reflexivity.
Qed.

Lemma checkEntry_value files glob :
  value (checkEntry Minimatch JSON_stringify files glob) =
  value (checkMatch Minimatch files (toMatchConfig glob)).
Proof. unfold checkEntry. eval_value. reflexivity. Qed.

Lemma checkGlobs_value files globs :
  value (checkGlobs Minimatch JSON_stringify files globs) =
  existsb (fun g => value (checkMatch Minimatch files (toMatchConfig g)))
    globs.
Proof.
  induction globs as [|g rest IH]; [reflexivity|].
  cbn [checkGlobs existsb]. eval_value. rewrite checkEntry_value.
  destruct (value (checkMatch Minimatch files (toMatchConfig g)));
    cbn [orb]; [reflexivity | exact IH].
Qed.

Lemma checkGlobs_cons_false files g rest :
  value (checkEntry Minimatch JSON_stringify files g) = false ->
  trace (checkGlobs Minimatch JSON_stringify files (g :: rest)) =
  trace (checkEntry Minimatch JSON_stringify files g)
  ++ trace (checkGlobs Minimatch JSON_stringify files rest).
Proof.
  intros H. cbn [checkGlobs]. rewrite trace_bind, H. reflexivity.
Qed.

Lemma checkGlobs_cons_true files g rest :
  value (checkEntry Minimatch JSON_stringify files g) = true ->
  trace (checkGlobs Minimatch JSON_stringify files (g :: rest)) =
  trace (checkEntry Minimatch JSON_stringify files g).
Proof.
  intros H. cbn [checkGlobs]. rewrite trace_bind, H, trace_ret.
  apply app_nil_r.
Qed.

(** No entry matches: every entry is evaluated, in input order. *)
Lemma checkGlobs_trace_none files globs :
  (forall e, In e globs ->
     value (checkMatch Minimatch files (toMatchConfig e)) = false) ->
  trace (checkGlobs Minimatch JSON_stringify files globs) =
  flat_map (fun e => trace (checkEntry Minimatch JSON_stringify files e))
    globs.
Proof.
  induction globs as [|g rest IH]; intros H; [reflexivity|].
  rewrite checkGlobs_cons_false.
  - cbn [flat_map]. f_equal. apply IH. intros e He. apply H. now right.
  - rewrite checkEntry_value. apply H. now left.
Qed.

(** Some entry matches: the entries up to the first matching one are
    evaluated, in input order, and nothing after it. *)
Lemma checkGlobs_trace_first files pre g post :
  (forall e, In e pre ->
     value (checkMatch Minimatch files (toMatchConfig e)) = false) ->
  value (checkMatch Minimatch files (toMatchConfig g)) = true ->
  trace (checkGlobs Minimatch JSON_stringify files (pre ++ g :: post)) =
  flat_map (fun e => trace (checkEntry Minimatch JSON_stringify files e))
    (pre ++ [g]).
Proof.
  induction pre as [|p pre IH]; intros Hpre Hg.
  - cbn [app flat_map]. rewrite app_nil_r. apply checkGlobs_cons_true.
    now rewrite checkEntry_value.
  - cbn [app]. rewrite checkGlobs_cons_false.
    + cbn [flat_map]. f_equal. apply IH; [|exact Hg].
      intros e He. apply Hpre. now right.
    + rewrite checkEntry_value. apply Hpre. now left.
Qed.

End EvaluatorFacts.

(* ===================================================================== *)
(** * From booleans to quantifiers *)
(* ===================================================================== *)

Lemma matchesAll_map_iff (Minimatch : string -> IMinimatch) file globs :
  matchesAll file (map Minimatch globs) = true <->
  forall g, In g globs -> match_ (Minimatch g) file = true.
Proof.
  unfold matchesAll. rewrite forallb_forall. split.
  - intros H g Hg. apply H. apply in_map. exact Hg.
  - intros H m Hm. apply in_map_iff in Hm. destruct Hm as [g [<- Hg]].
    apply H. exact Hg.
Qed.

Lemma matchesSome_map_iff (Minimatch : string -> IMinimatch) file globs :
  matchesSome file (map Minimatch globs) = true <->
  exists g, In g globs /\ match_ (Minimatch g) file = true.
Proof.
  unfold matchesSome. rewrite existsb_exists. split.
  - intros [m [Hm Hf]]. apply in_map_iff in Hm. destruct Hm as [g [<- Hg]].
    exists g. split; assumption.
  - intros [g [Hg Hf]]. exists (Minimatch g). split; [|exact Hf].
    apply in_map. exact Hg.
Qed.

Lemma forallb_const_true {A} (l : list A) : forallb (fun _ => true) l = true.
Proof. induction l; [reflexivity | exact IHl]. Qed.

Lemma existsb_const_true {A} (l : list A) :
  existsb (fun _ => true) l = true <-> l <> [].
Proof.
  destruct l; cbn; split; intros H; try reflexivity; try discriminate.
  now contradiction H.
Qed.

Lemma existsb_pointwise {A} (p q : A -> bool) (l : list A) :
  (forall a, p a = q a) -> existsb p l = existsb q l.
Proof.
  intros H. induction l as [|a l IH]; [reflexivity|].
  cbn [existsb]. rewrite H, IH. reflexivity.
Qed.

Section RuleFacts.

Variable Minimatch : string -> IMinimatch.

(** [{ all: config }] alone: the value of [checkAll]. *)
Lemma checkMatch_all_only files config :
  value (checkMatch Minimatch files {| all := Some config; any := None |}) =
  let ms := value (toMatchers Minimatch config) in
  forallb (fun f => matchesAll f (fst ms)) files
  && forallb (fun f => value (isMatchAny f (snd ms))) files.
Proof.
  rewrite checkMatch_value, checkMatch_any_value. cbn [all any].
  cbv zeta. rewrite checkAll_value, andb_true_r. reflexivity.
Qed.

(** [{ any: config }] alone: the value of [checkAny]. *)
Lemma checkMatch_any_only files config :
  value (checkMatch Minimatch files {| all := None; any := Some config |}) =
  let ms := value (toMatchers Minimatch config) in
  existsb (fun f => matchesAll f (fst ms)
                    && value (isMatchAny f (snd ms))) files.
Proof.
  rewrite checkMatch_value, checkMatch_any_value. cbn [all any andb].
  cbv zeta. rewrite checkAny_value. reflexivity.
Qed.

Lemma all_Globs_value files globs :
  value (checkMatch Minimatch files
           {| all := Some (Globs globs); any := None |}) =
  forallb (fun f => matchesAll f (map Minimatch globs)) files.
Proof.
  rewrite checkMatch_all_only, toMatchers_value_Globs. cbn [fst snd].
  cbv zeta. cbn [isMatchAny length Nat.eqb value ret fst].
  rewrite forallb_const_true. apply andb_true_r.
Qed.

Lemma any_Globs_value files globs :
  value (checkMatch Minimatch files
           {| all := None; any := Some (Globs globs) |}) =
  existsb (fun f => matchesAll f (map Minimatch globs)) files.
Proof.
  rewrite checkMatch_any_only, toMatchers_value_Globs. cbn [fst snd].
  cbv zeta. cbn [isMatchAny length Nat.eqb value ret fst].
  apply existsb_pointwise. intros f. apply andb_true_r.
Qed.

End RuleFacts.

Section RuleFactsStructured.

Variable Minimatch : string -> IMinimatch.

Lemma toMatchers_value_optMatchers r :
  value (toMatchers Minimatch (Rule r)) =
  (optMatchers Minimatch (and_ r), optMatchers Minimatch (or_ r)).
Proof. apply toMatchers_value_Rule. Qed.

Lemma all_Rule_value files r :
  value (checkMatch Minimatch files {| all := Some (Rule r); any := None |}) =
  forallb (fun f => matchesAll f (optMatchers Minimatch (and_ r))) files
  && forallb (fun f => value (isMatchAny f (optMatchers Minimatch (or_ r))))
       files.
Proof.
  rewrite checkMatch_all_only, toMatchers_value_optMatchers. reflexivity.
Qed.

Lemma any_Rule_value files r :
  value (checkMatch Minimatch files {| all := None; any := Some (Rule r) |}) =
  existsb (fun f =>
             matchesAll f (optMatchers Minimatch (and_ r))
             && value (isMatchAny f (optMatchers Minimatch (or_ r)))) files.
Proof.
  rewrite checkMatch_any_only, toMatchers_value_optMatchers. reflexivity.
Qed.

(** The [and] stage in words. *)
Lemma and_stage_iff file globs :
  matchesAll file (optMatchers Minimatch globs) = true <->
  forall l, globs = Some l ->
    forall g, In g l -> match_ (Minimatch g) file = true.
Proof.
  destruct globs as [l|]; cbn [optMatchers].
  - rewrite matchesAll_map_iff. split.
    + intros H l' [= <-]. exact H.
    + intros H. apply (H l eq_refl).
  - split; [intros _ l [=] | reflexivity].
Qed.

(** The [or] stage in words: an absent or empty list lets every file
    pass. *)
Lemma or_stage_iff file globs :
  value (isMatchAny file (optMatchers Minimatch globs)) = true <->
  forall l, globs = Some l -> l <> [] ->
    exists g, In g l /\ match_ (Minimatch g) file = true.
Proof.
  rewrite isMatchAny_value. destruct globs as [l|]; cbn [optMatchers].
  - destruct l as [|g0 l].
    + cbn [map]. split; [|reflexivity].
      intros _ l' [= <-] Hne. now contradiction Hne.
    + change (map Minimatch (g0 :: l))
        with (Minimatch g0 :: map Minimatch l) at 1.
      cbv iota. rewrite matchesSome_map_iff. split.
      * intros H l' [= <-] _. exact H.
      * intros H. apply (H (g0 :: l) eq_refl). discriminate.
  - split; [intros _ l [=] | reflexivity].
Qed.

End RuleFactsStructured.

(* ===================================================================== *)
(** * The evaluator against its specification *)
(* ===================================================================== *)

(** C1.  For every list of changed files and every sequence of entries,
    [checkGlobs] returns the disjunction, over all entries, of "the entry
    matches": it is [true] exactly when some entry matches.  Entries are
    evaluated in input order and evaluation stops at the first matching
    entry: the trace is the traces of the entries up to and including the
    first one that matches, one after the other, and of all entries when
    none matches. *)
Theorem checkGlobs_is_ordered_disjunction :
  forall (Minimatch : string -> IMinimatch)
         (JSON_stringify : StringOrMatchConfig -> string)
         (changedFiles : list string) (globs : GlobalMatchConfig),
    let matches g :=
      value (checkMatch Minimatch changedFiles (toMatchConfig g)) in
    let work g :=
      trace (checkEntry Minimatch JSON_stringify changedFiles g) in
    let result := checkGlobs Minimatch JSON_stringify changedFiles globs in
    value result = existsb matches globs
    /\ (value result = true <-> exists g, In g globs /\ matches g = true)
    /\ (forall pre g post,
          globs = pre ++ g :: post ->
          (forall e, In e pre -> matches e = false) ->
          matches g = true ->
          trace result = flat_map work (pre ++ [g]))
    /\ ((forall e, In e globs -> matches e = false) ->
        trace result = flat_map work globs).
Proof.
  intros Minimatch JSON_stringify changedFiles globs matches work result.
  assert (Hv : value result = existsb matches globs)
    by apply checkGlobs_value.
  split; [exact Hv|]. split; [|split].
  - rewrite Hv. apply existsb_exists.
  - intros pre g post -> Hpre Hg. apply checkGlobs_trace_first; assumption.
  - intros Hnone. apply checkGlobs_trace_none. exact Hnone.
Qed.

(** C2.  A rule [{ all: L }] with a plain glob list [L] (in particular
    every non-empty one) matches exactly when every changed file matches
    every glob of [L]. *)
Theorem all_plain_list_every_file_every_glob :
  forall (Minimatch : string -> IMinimatch)
         (changedFiles : list string) (L : list string),
    value (checkMatch Minimatch changedFiles
             {| all := Some (Globs L); any := None |}) = true
    <-> (forall file glob, In file changedFiles -> In glob L ->
           match_ (Minimatch glob) file = true).
Proof.
  intros Minimatch changedFiles L.
  rewrite all_Globs_value, forallb_forall. split.
  - intros H file glob Hf Hg.
    apply (proj1 (matchesAll_map_iff Minimatch file L) (H file Hf) glob Hg).
  - intros H file Hf. apply matchesAll_map_iff. intros glob Hg.
    apply H; assumption.
Qed.

(** C3.  A rule [{ any: L }] with a plain glob list [L] (in particular
    every non-empty one) matches exactly when some changed file matches
    every glob of [L]: the list is a conjunction over globs, under an
    existential over files. *)
Theorem any_plain_list_some_file_every_glob :
  forall (Minimatch : string -> IMinimatch)
         (changedFiles : list string) (L : list string),
    value (checkMatch Minimatch changedFiles
             {| all := None; any := Some (Globs L) |}) = true
    <-> (exists file, In file changedFiles /\
           forall glob, In glob L -> match_ (Minimatch glob) file = true).
Proof.
  intros Minimatch changedFiles L.
  rewrite any_Globs_value, existsb_exists. split.
  - intros [file [Hf H]]. exists file. split; [exact Hf|].
    apply matchesAll_map_iff. exact H.
  - intros [file [Hf H]]. exists file. split; [exact Hf|].
    apply matchesAll_map_iff. exact H.
Qed.

(** C4.  A rule [{ all: { and, or } }] matches exactly when every changed
    file matches every pattern of [and], when [and] is present, and every
    changed file matches at least one pattern of [or], when [or] is
    present and not empty; an absent or empty [or] is satisfied by every
    file. *)
Theorem all_rule_and_or :
  forall (Minimatch : string -> IMinimatch)
         (changedFiles : list string) (r : MatchRule),
    (value (checkMatch Minimatch changedFiles
              {| all := Some (Rule r); any := None |}) = true
     <-> (forall l, and_ r = Some l ->
            forall file glob, In file changedFiles -> In glob l ->
              match_ (Minimatch glob) file = true)
         /\ (forall l, or_ r = Some l -> l <> [] ->
               forall file, In file changedFiles ->
                 exists glob, In glob l /\ match_ (Minimatch glob) file = true))
    /\ (forall file,
          or_ r = None \/ or_ r = Some [] ->
          isMatchAny file (optMatchers Minimatch (or_ r)) = ret true).
Proof.
  intros Minimatch changedFiles r. split.
  - rewrite all_Rule_value, andb_true_iff, !forallb_forall. split.
    + intros [Hand Hor]. split.
      * intros l Hl file glob Hf Hg.
        apply (proj1 (and_stage_iff Minimatch file (and_ r)) (Hand file Hf)
                 l Hl glob Hg).
      * intros l Hl Hne file Hf.
        apply (proj1 (or_stage_iff Minimatch file (or_ r)) (Hor file Hf)
                 l Hl Hne).
    + intros [Hand Hor]. split; intros file Hf.
      * apply and_stage_iff. intros l Hl glob Hg. apply (Hand l Hl); assumption.
      * apply or_stage_iff. intros l Hl Hne. apply (Hor l Hl Hne). exact Hf.
  - intros file [H | H]; rewrite H; reflexivity.
Qed.

(** C5.  With no changed file, the [all] part of every rule evaluates to
    [true] and the [any] part of every rule evaluates to [false]; hence
    [{ all: L }] matches and [{ any: L }] does not, for every [L] (in
    particular every non-empty one). *)
Theorem empty_changed_files :
  forall (Minimatch : string -> IMinimatch),
    (forall config : GlobsOrRule,
       let ms := value (toMatchers Minimatch config) in
       value (checkAll [] (fst ms) (snd ms)) = true
       /\ value (checkAny [] (fst ms) (snd ms)) = false)
    /\ (forall L : list string,
          value (checkMatch Minimatch []
                   {| all := Some (Globs L); any := None |}) = true
          /\ value (checkMatch Minimatch []
                      {| all := None; any := Some (Globs L) |}) = false).
Proof.
  intros Minimatch. split.
  - intros config ms. split; reflexivity.
  - intros L. rewrite all_Globs_value, any_Globs_value. split; reflexivity.
Qed.

(** C6.  [isMatchAny] on an empty matcher list returns [true] for every
    file.  Hence [{ any: [] }] and [{ any: { or: [] } }] match exactly when
    the list of changed files is not empty, while [{ all: [] }] matches
    every list of changed files, the empty one included. *)
Theorem empty_matcher_list_asymmetry :
  forall (Minimatch : string -> IMinimatch),
    (forall file, isMatchAny file [] = ret true)
    /\ (forall changedFiles,
          value (checkMatch Minimatch changedFiles
                   {| all := None; any := Some (Globs []) |}) = true
          <-> changedFiles <> [])
    /\ (forall changedFiles,
          value (checkMatch Minimatch changedFiles
                   {| all := None;
                      any := Some (Rule {| and_ := None; or_ := Some [] |}) |})
          = true
          <-> changedFiles <> [])
    /\ (forall changedFiles,
          value (checkMatch Minimatch changedFiles
                   {| all := Some (Globs []); any := None |}) = true).
Proof.
  intros Minimatch. split; [reflexivity|]. split; [|split].
  - intros changedFiles. rewrite any_Globs_value. cbn [map matchesAll forallb].
    apply existsb_const_true.
  - intros changedFiles. rewrite any_Rule_value.
    cbn [and_ or_ optMatchers map matchesAll forallb isMatchAny length
         Nat.eqb value ret fst andb].
    apply existsb_const_true.
  - intros changedFiles. rewrite all_Globs_value.
    cbn [map matchesAll forallb]. apply forallb_const_true.
Qed.

(** C7.  [toMatchConfig] turns a bare string [s] into [{ any: [s] }] and
    returns a structured object as it is; it is a total function, with no
    error path.  Hence [checkGlobs] returns the same boolean on [[s]] and
    on [[{ any: [s] }]], for every list of changed files. *)
Theorem toMatchConfig_normalizes :
  forall (Minimatch : string -> IMinimatch)
         (JSON_stringify : StringOrMatchConfig -> string),
    (forall s, toMatchConfig (OfString s)
               = {| all := None; any := Some (Globs [s]) |})
    /\ (forall c, toMatchConfig (OfMatchConfig c) = c)
    /\ (forall changedFiles s,
          value (checkGlobs Minimatch JSON_stringify changedFiles
                   [OfString s])
          = value (checkGlobs Minimatch JSON_stringify changedFiles
                     [OfMatchConfig
                        {| all := None; any := Some (Globs [s]) |}])).
Proof.
  intros Minimatch JSON_stringify. split; [reflexivity|].
  split; [reflexivity|].
  intros changedFiles s. rewrite !checkGlobs_value. reflexivity.
Qed.

(* ===================================================================== *)
(** * Loading the configuration: facts *)
(* ===================================================================== *)

Lemma Map_get_set_same m label globs :
  Map_get (Map_set m label globs) label = Some globs.
Proof.
  induction m as [|[k v] rest IH]; cbn [Map_set Map_get].
  - rewrite String.eqb_refl. reflexivity.
  - destruct (String.eqb k label) eqn:E; cbn [Map_get]; rewrite E;
      [reflexivity | exact IH].
Qed.

Lemma Map_get_set_other m label globs label' :
  label <> label' ->
  Map_get (Map_set m label globs) label' = Map_get m label'.
Proof.
  intros Hne. induction m as [|[k v] rest IH]; cbn [Map_set Map_get].
  - destruct (String.eqb_spec label label'); [contradiction | reflexivity].
  - destruct (String.eqb_spec k label) as [->|Hk]; cbn [Map_get].
    + destruct (String.eqb_spec label label'); [contradiction | reflexivity].
    + rewrite IH. reflexivity.
Qed.

Lemma Map_set_keys_In m label globs k :
  In k (map fst (Map_set m label globs)) <-> k = label \/ In k (map fst m).
Proof.
  induction m as [|[k0 v] rest IH]; cbn [Map_set map fst In].
  - intuition congruence.
  - destruct (String.eqb_spec k0 label) as [->|Hk]; cbn [map fst In].
    + intuition congruence.
    + rewrite IH. intuition congruence.
Qed.

Lemma Map_set_NoDup m label globs :
  NoDup (map fst m) -> NoDup (map fst (Map_set m label globs)).
Proof.
  induction m as [|[k0 v] rest IH]; cbn [Map_set map fst]; intros H.
  - constructor; [intros [] | constructor].
  - destruct (String.eqb_spec k0 label) as [->|Hk]; cbn [map fst].
    + exact H.
    + inversion H as [|? ? Hnotin Hrest]; subst. constructor.
      * rewrite Map_set_keys_In. intros [-> | Hin]; [now apply Hk | contradiction].
      * apply IH. exact Hrest.
Qed.

Lemma Map_get_In m label globs :
  NoDup (map fst m) -> In (label, globs) m -> Map_get m label = Some globs.
Proof.
  induction m as [|[k v] rest IH]; intros Hnd Hin; [destruct Hin|].
  inversion Hnd as [|? ? Hnotin Hrest]; subst. cbn [Map_get].
  destruct Hin as [[= -> ->] | Hin].
  - rewrite String.eqb_refl. reflexivity.
  - destruct (String.eqb_spec k label) as [->|Hk].
    + contradiction Hnotin. apply (in_map fst) in Hin. exact Hin.
    + apply IH; assumption.
Qed.

Lemma prop_Some_In configObject label v :
  prop configObject label = Some v -> In label (keys configObject).
Proof.
  induction configObject as [|[k v0] rest IH]; cbn [prop keys map fst];
    [discriminate|].
  destruct (String.eqb_spec k label) as [->|Hk]; intros H.
  - now left.
  - right. apply IH. exact H.
Qed.

(** The loop over well-shaped labels: it returns the accumulator with
    every visited label set to what its value is loaded as. *)
Lemma getLabelGlobMapFromObject_loop_ok configObject labels :
  (forall label, In label labels -> wellShaped configObject label) ->
  forall acc,
  exists m,
    getLabelGlobMapFromObject_loop configObject labels acc = Ok m
    /\ (NoDup (map fst acc) -> NoDup (map fst m))
    /\ (forall label,
          Map_get m label =
          if in_dec string_dec label labels
          then match prop configObject label with
               | Some v => loadedAs v
               | None => None
               end
          else Map_get acc label).
Proof.
  induction labels as [|l rest IH]; intros Hws acc.
  - exists acc. repeat split; auto.
  - destruct (Hws l (or_introl eq_refl)) as [v [globs [Hp Hl]]].
    assert (Hrest : forall label, In label rest -> wellShaped configObject label)
      by (intros label Hin; apply Hws; now right).
    cbn [getLabelGlobMapFromObject_loop]. rewrite Hp.
    destruct v as [s|a|n|b| |fs]; cbn [loadedAs] in Hl; try discriminate;
      injection Hl as <-.
    + destruct (IH Hrest (Map_set acc l [OfString s])) as [m [Hm [Hnd Hget]]].
      exists m. split; [exact Hm|]. split.
      * intros H. apply Hnd, Map_set_NoDup, H.
      * intros label. rewrite Hget.
        destruct (in_dec string_dec label rest) as [Hin|Hnin];
          destruct (in_dec string_dec label (l :: rest)) as [Hin'|Hnin'];
          try reflexivity.
        -- contradiction Hnin'. now right.
        -- destruct Hin' as [<-|Hin']; [|contradiction].
           rewrite Map_get_set_same, Hp. reflexivity.
        -- apply Map_get_set_other. intros ->. apply Hnin'. now left.
    + destruct (IH Hrest (Map_set acc l a)) as [m [Hm [Hnd Hget]]].
      exists m. split; [exact Hm|]. split.
      * intros H. apply Hnd, Map_set_NoDup, H.
      * intros label. rewrite Hget.
        destruct (in_dec string_dec label rest) as [Hin|Hnin];
          destruct (in_dec string_dec label (l :: rest)) as [Hin'|Hnin'];
          try reflexivity.
        -- contradiction Hnin'. now right.
        -- destruct Hin' as [<-|Hin']; [|contradiction].
           rewrite Map_get_set_same, Hp. reflexivity.
        -- apply Map_get_set_other. intros ->. apply Hnin'. now left.
Qed.

(** The loop stops at the first label whose value is ill-shaped. *)
Lemma getLabelGlobMapFromObject_loop_throw configObject pre label rest :
  (forall l, In l pre -> wellShaped configObject l) ->
  ~ wellShaped configObject label ->
  forall acc,
    getLabelGlobMapFromObject_loop configObject (pre ++ label :: rest) acc
    = Throw (unexpectedType label).
Proof.
  intros Hpre Hbad. induction pre as [|l pre IH]; intros acc.
  - cbn [app getLabelGlobMapFromObject_loop].
    destruct (prop configObject label) as [v|] eqn:Hp; [|reflexivity].
    destruct v; try reflexivity; contradiction Hbad; eexists; eexists;
      (split; [exact Hp | reflexivity]).
  - assert (Hpre' : forall l0, In l0 pre -> wellShaped configObject l0)
      by (intros l0 Hin; apply Hpre; now right).
    destruct (Hpre l (or_introl eq_refl)) as [v [globs [Hp Hl]]].
    cbn [app getLabelGlobMapFromObject_loop]. rewrite Hp.
    destruct v; cbn [loadedAs] in Hl; try discriminate; apply IH; exact Hpre'.
Qed.

(** The map [getLabelGlobMapFromObject] returns has one entry per label. *)
Lemma getLabelGlobMapFromObject_NoDup configObject :
  forall labels acc m,
    getLabelGlobMapFromObject_loop configObject labels acc = Ok m ->
    NoDup (map fst acc) -> NoDup (map fst m).
Proof.
  induction labels as [|l rest IH]; intros acc m H Hnd.
  - injection H as <-. exact Hnd.
  - cbn [getLabelGlobMapFromObject_loop] in H.
    destruct (prop configObject l) as [v|]; [|discriminate].
    destruct v; try discriminate;
      apply (IH _ _ H); apply Map_set_NoDup; exact Hnd.
Qed.

(* ===================================================================== *)
(** * What the evaluator writes to the trace *)
(* ===================================================================== *)

Create HintDb events.

Lemma evaluatorOnly_ret {A} (a : A) : evaluatorOnly (trace (ret a)).
Proof. constructor. Qed.

Lemma evaluatorOnly_debug msg : evaluatorOnly (trace (debug msg)).
Proof. repeat constructor. Qed.

Lemma evaluatorOnly_new g : evaluatorOnly (trace (emit (NewMinimatch g))).
Proof. repeat constructor. Qed.

Lemma evaluatorOnly_callMatch m f : evaluatorOnly (trace (callMatch m f)).
Proof. repeat constructor. Qed.

Lemma evaluatorOnly_bind {A B} (m : M A) (k : A -> M B) :
  evaluatorOnly (trace m) -> (forall a, evaluatorOnly (trace (k a))) ->
  evaluatorOnly (trace (bind m k)).
Proof.
  intros Hm Hk. rewrite trace_bind. apply Forall_app. split; [exact Hm|].
  apply Hk.
Qed.

#[local] Hint Resolve evaluatorOnly_ret evaluatorOnly_debug evaluatorOnly_new
  evaluatorOnly_callMatch : events.

(** One step through a computation: split a [bind], decide a branch, or
    close the goal from the facts already known. *)
Ltac events_step :=
  first
    [ solve [auto with events]
    | apply evaluatorOnly_bind; [|intros]
    | match goal with
      | |- evaluatorOnly (trace (if ?b then _ else _)) => destruct b
      | |- evaluatorOnly (trace (match ?x with _ => _ end)) => destruct x
      end ].

Ltac events := repeat events_step.

Lemma isMatchAll_events file matchers :
  evaluatorOnly (trace (isMatchAll file matchers)).
Proof.
  unfold isMatchAll. events.
  induction matchers; cbn [isMatchAll_loop]; events.
Qed.

Lemma isMatchAny_events file matchers :
  evaluatorOnly (trace (isMatchAny file matchers)).
Proof.
  unfold isMatchAny. events.
  induction matchers; cbn [isMatchAny_loop]; events.
Qed.

#[local] Hint Resolve isMatchAll_events isMatchAny_events : events.

Lemma checkAny_events files matcherAll matcherAny :
  evaluatorOnly (trace (checkAny files matcherAll matcherAny)).
Proof.
  unfold checkAny. events.
  induction files; cbn [checkAny_loop]; events.
Qed.

Lemma checkAll_loop1_events files matcherAll after :
  evaluatorOnly (trace after) ->
  evaluatorOnly (trace (checkAll_loop1 files matcherAll after)).
Proof.
  intros Hafter. induction files; cbn [checkAll_loop1]; events.
Qed.

Lemma checkAll_loop2_events files matcherAny :
  evaluatorOnly (trace (checkAll_loop2 files matcherAny)).
Proof. induction files; cbn [checkAll_loop2]; events. Qed.

#[local] Hint Resolve checkAll_loop2_events : events.

Lemma checkAll_events files matcherAll matcherAny :
  evaluatorOnly (trace (checkAll files matcherAll matcherAny)).
Proof.
  unfold checkAll. apply evaluatorOnly_bind; [events|].
  intros _. apply checkAll_loop1_events. events.
Qed.

Lemma newMatchers_events Minimatch globs :
  evaluatorOnly (trace (newMatchers Minimatch globs)).
Proof. induction globs; cbn [newMatchers]; events. Qed.

#[local] Hint Resolve checkAny_events checkAll_events newMatchers_events
  : events.

Lemma toMatchers_events Minimatch config :
  evaluatorOnly (trace (toMatchers Minimatch config)).
Proof. unfold toMatchers. destruct config; events. Qed.

#[local] Hint Resolve toMatchers_events : events.

Lemma checkMatch_events Minimatch files matchConfig :
  evaluatorOnly (trace (checkMatch Minimatch files matchConfig)).
Proof. unfold checkMatch, checkMatch_any. events. Qed.

#[local] Hint Resolve checkMatch_events : events.

Lemma checkGlobs_events Minimatch JSON_stringify files globs :
  evaluatorOnly (trace (checkGlobs Minimatch JSON_stringify files globs)).
Proof.
  induction globs; cbn [checkGlobs]; unfold checkEntry; events.
Qed.

#[local] Hint Resolve checkGlobs_events : events.

Lemma run_loop_events w files prLabels entries labels labelsToRemove :
  evaluatorOnly
    (trace (run_loop w files prLabels entries labels labelsToRemove)).
Proof.
  revert labels labelsToRemove.
  induction entries as [|[label globs] rest IH]; intros; cbn [run_loop];
    events.
Qed.

(* ===================================================================== *)
(** * The driver: facts *)
(* ===================================================================== *)

Lemma value_bindX {A B} (m : X A) (k : A -> X B) :
  value (bindX m k) =
  match value m with
  | Ok a => value (k a)
  | Throw e => Throw e
  end.
Proof. unfold bindX. rewrite value_bind. destruct (value m); reflexivity. Qed.

Lemma trace_bindX {A B} (m : X A) (k : A -> X B) :
  trace (bindX m k) =
  trace m ++ match value m with
             | Ok a => trace (k a)
             | Throw _ => []
             end.
Proof. unfold bindX. rewrite trace_bind. destruct (value m); reflexivity. Qed.

Lemma In_bindX {A B} (m : X A) (k : A -> X B) e :
  In e (trace (bindX m k)) ->
  In e (trace m) \/ exists a, value m = Ok a /\ In e (trace (k a)).
Proof.
  rewrite trace_bindX, in_app_iff. intros [H|H]; [now left|].
  destruct (value m) as [a|msg]; [|destruct H].
  right. exists a. split; [reflexivity | exact H].
Qed.

Lemma value_lift {A} (m : M A) : value (lift m) = Ok (value m).
Proof. unfold lift. rewrite value_bind. reflexivity. Qed.

Lemma trace_lift {A} (m : M A) : trace (lift m) = trace m.
Proof. unfold lift. rewrite trace_bind. apply app_nil_r. Qed.

Lemma evaluatorOnly_In t e :
  evaluatorOnly t -> In e t -> isEvaluatorEvent e = true.
Proof. intros H. apply (proj1 (Forall_forall _ t) H). Qed.

Lemma removeLabels_requests_In w prNumber labels e :
  In e (trace (removeLabels_requests w prNumber labels)) ->
  exists label, In label labels /\ e = RemoveLabel prNumber label.
Proof.
  induction labels as [|l rest IH]; cbn [removeLabels_requests].
  - intros [].
  - rewrite trace_bind. cbn [trace emit snd app In]. intros [<- | H].
    + exists l. split; [now left | reflexivity].
    + rewrite trace_bind, in_app_iff in H. destruct H as [H|H].
      * destruct (IH H) as [label [Hin He]]. exists label.
        split; [now right | exact He].
      * destruct (issues_removeLabel w prNumber l); destruct H.
Qed.

(** Every requested removal is issued, whatever the host answers. *)
Lemma removeLabels_requests_all w prNumber labels label :
  In label labels ->
  In (RemoveLabel prNumber label)
     (trace (removeLabels_requests w prNumber labels)).
Proof.
  induction labels as [|l rest IH]; [intros []|].
  cbn [removeLabels_requests]. rewrite trace_bind.
  cbn [trace emit snd app In]. intros [-> | H]; [now left|].
  right. rewrite trace_bind, in_app_iff. left. apply IH. exact H.
Qed.

Lemma getLabelGlobs_value w configPath labelGlobs :
  core_getInput w "configuration-path" true = Ok configPath ->
  value (getLabelGlobs w configPath) = Ok labelGlobs ->
  loadedLabelGlobs w = Some labelGlobs.
Proof.
  intros Hpath. unfold getLabelGlobs, fetchContent, loadedLabelGlobs,
    configurationOf, call. rewrite Hpath, value_bindX. cbn [value ret fst].
  destruct (repos_getContent w configPath) as [content|]; [|discriminate].
  rewrite value_bindX. cbn [value ret fst].
  destruct (yaml_load w content) as [o|]; [|discriminate].
  intros ->. reflexivity.
Qed.

Lemma getLabelGlobs_trace w configPath : trace (getLabelGlobs w configPath) = [].
Proof.
  unfold getLabelGlobs, fetchContent, call. rewrite !trace_bindX.
  cbn [value trace ret fst snd app].
  destruct (repos_getContent w configPath) as [content|]; [|reflexivity].
  rewrite trace_bindX. cbn [value trace ret fst snd app].
  destruct (yaml_load w content); reflexivity.
Qed.

Lemma getChangedFiles_value w prNumber files :
  value (getChangedFiles w prNumber) = Ok files ->
  paginate_listFiles w prNumber = Ok files.
Proof.
  unfold getChangedFiles, call. rewrite value_bindX. cbn [value ret fst].
  destruct (paginate_listFiles w prNumber) as [l|]; [|discriminate].
  rewrite !value_bindX, !value_lift. exact (fun H => H).
Qed.

Lemma debugFiles_In files e :
  In e (trace (debugFiles files)) -> exists msg, e = Debug msg.
Proof.
  induction files as [|f rest IH]; cbn [debugFiles].
  - intros [].
  - rewrite trace_bind. cbn [trace debug emit snd app In].
    intros [<- | H]; [eexists; reflexivity | apply IH; exact H].
Qed.

Lemma getChangedFiles_In w prNumber e :
  In e (trace (getChangedFiles w prNumber)) -> exists msg, e = Debug msg.
Proof.
  unfold getChangedFiles, call. rewrite trace_bindX.
  cbn [value trace ret fst snd app].
  destruct (paginate_listFiles w prNumber) as [l|]; [|intros []].
  rewrite !trace_bindX, !value_lift, !trace_lift. cbn [retX trace ret snd].
  rewrite app_nil_r. cbn [debug emit snd app In].
  intros [<- | H]; [eexists; reflexivity | apply (debugFiles_In l); exact H].
Qed.

Section RunLoop.

Variable w : Collaborators.
Variables (files prLabels : list string).


Lemma find_carried label x :
  find (fun l => String.eqb l label) prLabels = Some x -> In label prLabels.
Proof.
  intros H. apply find_some in H. destruct H as [Hin Heq].
  apply String.eqb_eq in Heq. subst x. exact Hin.
Qed.

Lemma find_not_carried label :
  find (fun l => String.eqb l label) prLabels = None -> ~ In label prLabels.
Proof.
  intros H Hin. apply (find_none _ _ H) in Hin.
  rewrite String.eqb_refl in Hin. discriminate.
Qed.

(** One turn of the loop, on values. *)
Lemma run_loop_value_cons label globs rest labels labelsToRemove :
  value (run_loop w files prLabels ((label, globs) :: rest)
           labels labelsToRemove) =
  if rulesMatch w files globs then
    value (run_loop w files prLabels rest (labels ++ [label]) labelsToRemove)
  else
    match find (fun l => String.eqb l label) prLabels with
    | Some _ =>
        value (run_loop w files prLabels rest labels
                 (labelsToRemove ++ [label]))
    | None => value (run_loop w files prLabels rest labels labelsToRemove)
    end.
Proof.
  cbn [run_loop]. rewrite !value_bind. unfold rulesMatch.
  destruct (value (checkGlobs _ _ files globs)); [reflexivity|].
  destruct (find _ prLabels); reflexivity.
Qed.



(** Conversely, a carried label whose rule set did not match is collected
    for removal. *)
Lemma run_loop_collects entries : forall labels labelsToRemove l,
  In l labelsToRemove
  \/ (exists globs, In (l, globs) entries /\ rulesMatch w files globs = false
                    /\ In l prLabels) ->
  In l (snd (value (run_loop w files prLabels entries labels labelsToRemove))).
Proof.
  induction entries as [|[label globs] rest IH]; intros labels rem l.
  - cbn. intros [H | [g [[] _]]]. exact H.
  - rewrite run_loop_value_cons. intros [H | [g [[Heq | Hin] [Hg Hc]]]].
    + destruct (rulesMatch w files globs); [apply IH; now left|].
      destruct (find _ prLabels); apply IH; left; [|exact H].
      apply in_app_iff. now left.
    + injection Heq as -> ->. rewrite Hg.
      destruct (find _ prLabels) eqn:Hf.
      * apply IH. left. apply in_app_iff. right. now left.
      * contradiction (find_not_carried _ Hf).
    + destruct (rulesMatch w files globs); [apply IH; right; exists g; auto|].
      destruct (find _ prLabels); apply IH; right; exists g; auto.
Qed.

End RunLoop.

(** Split the membership of an event in the trace of a [bindX]: either it
    was written by the first computation, or that one returned and the
    continuation wrote it. *)
Ltac stepX H a Ha :=
  apply In_bindX in H; destruct H as [H | [a [Ha H]]].

(** Where every event of [run_try] comes from: it is a log line, or the
    run got as far as evaluating the rules and the event was written by
    the loop, is the one [addLabels] request, or is one of the
    [removeLabel] requests, issued under [syncLabels] for a label of
    [labelsToRemove]. *)
Lemma run_try_events w e :
  In e (trace (run_try w)) ->
  (isMatcherEvent e = false /\ isMutation e = false)
  \/ exists prNumber syncInput prLabels files m,
       reachesEvaluation w prNumber syncInput prLabels files m
       /\ (In e (trace (run_loop w files prLabels m [] []))
           \/ e = AddLabels prNumber
                    (fst (value (run_loop w files prLabels m [] [])))
           \/ (truthy syncInput = true
               /\ exists l,
                    In l (snd (value (run_loop w files prLabels m [] [])))
                    /\ e = RemoveLabel prNumber l)).
Proof.
  intros H. unfold run_try in H.
  stepX H token Htoken; [destruct H|].
  stepX H configPath Hpath; [destruct H|].
  stepX H syncInput Hsync; [destruct H|].
  cbv zeta in H. unfold getPrNumber in H.
  destruct (payload_pull_request w) as [prNumber|] eqn:Hpr.
  2:{ rewrite trace_lift in H. destruct H as [<- | []]. left. split; reflexivity. }
  destruct (Z.eqb_spec prNumber 0) as [_|Hnz].
  { rewrite trace_lift in H. destruct H as [<- | []]. left. split; reflexivity. }
  stepX H u Hocto; [destruct H|]. destruct u.
  stepX H prLabels Hpull; [destruct H|].
  stepX H u Hu. { rewrite trace_lift in H. destruct H as [<- | []].
                  left. split; reflexivity. }
  stepX H files Hfiles.
  { apply getChangedFiles_In in H. destruct H as [msg ->].
    left. split; reflexivity. }
  stepX H m Hm. { rewrite getLabelGlobs_trace in H. destruct H. }
  apply getChangedFiles_value in Hfiles.
  apply (getLabelGlobs_value w configPath m Hpath) in Hm.
  assert (Hreach : reachesEvaluation w prNumber syncInput prLabels files m).
  { unfold reachesEvaluation. split; [exists token; split; assumption|].
    repeat split; assumption. }
  right. exists prNumber, syncInput, prLabels, files, m.
  split; [exact Hreach|].
  stepX H ls Hls. { rewrite trace_lift in H. now left. }
  rewrite value_lift in Hls. injection Hls as <-.
  stepX H u' Hadd.
  - right. left.
    destruct (Nat.ltb 0 (length (fst (value (run_loop w files prLabels m [] [])))));
      [|destruct H].
    unfold addLabels in H. rewrite trace_bindX, trace_lift, value_lift in H.
    cbn [trace emit call ret snd app In] in H. destruct H as [<- | []].
    reflexivity.
  - right. right.
    destruct (truthy syncInput); [|destruct H]. split; [reflexivity|].
    cbn [andb] in H.
    destruct (negb (Nat.eqb (length (snd (value (run_loop w files prLabels m [] [])))) 0));
      [|destruct H].
    unfold removeLabels in H. apply removeLabels_requests_In in H.
    exact H.
Qed.

(** The [catch] clause of [run] only reports. *)
Lemma run_events w e :
  In e (trace (run w)) ->
  In e (trace (run_try w)) \/ exists msg, e = CoreError msg \/ e = SetFailed msg.
Proof.
  unfold run. rewrite trace_bind, in_app_iff. intros [H | H]; [now left|].
  right. destruct (value (run_try w)) as [u|msg]; [destruct H|].
  rewrite trace_bind in H. cbn [trace emit snd app In] in H.
  exists msg. destruct H as [<- | [<- | []]]; [now left | now right].
Qed.

(** Matcher calls and label changes only happen once the run has got as
    far as evaluating the rules. *)
Lemma run_effects_after_loading w e :
  In e (trace (run w)) ->
  isMatcherEvent e = true \/ isMutation e = true ->
  exists prNumber syncInput prLabels files m,
    reachesEvaluation w prNumber syncInput prLabels files m.
Proof.
  intros Hin He. apply run_events in Hin.
  destruct Hin as [Hin | [msg [-> | ->]]].
  - apply run_try_events in Hin.
    destruct Hin as [[Hm Hu] | (n & s & p & f & m & Hreach & _)].
    + rewrite Hm, Hu in He. destruct He; discriminate.
    + exists n, s, p, f, m. exact Hreach.
  - destruct He; discriminate.
  - destruct He; discriminate.
Qed.

Lemma trace_call {A} (r : result A) : trace (call r) = [].
Proof. reflexivity. Qed.
Lemma value_call {A} (r : result A) : value (call r) = r.
Proof. reflexivity. Qed.

Lemma loadedLabelGlobs_inv w m :
  loadedLabelGlobs w = Some m ->
  exists configPath,
    core_getInput w "configuration-path" true = Ok configPath
    /\ value (getLabelGlobs w configPath) = Ok m.
Proof.
  unfold loadedLabelGlobs, configurationOf.
  destruct (core_getInput w "configuration-path" true) as [configPath|] eqn:Hp;
    [|discriminate].
  destruct (repos_getContent w configPath) as [content|] eqn:Hc; [|discriminate].
  destruct (yaml_load w content) as [o|] eqn:Ho; [|discriminate].
  destruct (getLabelGlobMapFromObject o) as [m'|] eqn:Hm; [|discriminate].
  intros [= <-]. exists configPath. split; [reflexivity|].
  unfold getLabelGlobs, fetchContent. rewrite value_bindX, value_call, Hc.
  rewrite value_bindX, value_call, Ho. rewrite value_call. exact Hm.
Qed.

Lemma getChangedFiles_ok w n files :
  paginate_listFiles w n = Ok files ->
  value (getChangedFiles w n) = Ok files
  /\ trace (getChangedFiles w n) = Debug "found changed files:" :: trace (debugFiles files).
Proof.
  intros H. unfold getChangedFiles.
  rewrite value_bindX, trace_bindX, value_call, trace_call, H.
  rewrite !value_bindX, !trace_bindX, !value_lift, !trace_lift.
  split; [reflexivity|]. cbn [retX trace ret snd debug emit app].
  rewrite app_nil_r. reflexivity.
Qed.

(** The trace of [run_try] once the run has got as far as evaluating the
    rules: the log lines, the loop, the [addLabels] request when some
    label matched, and, when that request succeeded and [syncLabels] is
    set, one [removeLabel] request per label of [labelsToRemove]. *)
Lemma run_try_reached w n s p f m :
  reachesEvaluation w n s p f m ->
  trace (run_try w) =
  Debug ("fetching changed files for pr #" ^^ numberToString n)
  :: Debug "found changed files:"
  :: trace (debugFiles f)
  ++ trace (run_loop w f p m [] [])
  ++ (if Nat.ltb 0 (length (fst (value (run_loop w f p m [] []))))
      then [AddLabels n (fst (value (run_loop w f p m [] [])))] else [])
  ++ match (if Nat.ltb 0 (length (fst (value (run_loop w f p m [] []))))
            then issues_addLabels w n (fst (value (run_loop w f p m [] [])))
            else Ok tt) with
     | Ok _ =>
         if truthy s && negb (Nat.eqb (length (snd (value (run_loop w f p m [] [])))) 0)
         then trace (removeLabels_requests w n (snd (value (run_loop w f p m [] []))))
         else []
     | Throw _ => []
     end.
Proof.
  intros ([token [Htoken Hocto]] & Hsync & Hpr & Hnz & Hpull & Hfiles & Hload).
  destruct (loadedLabelGlobs_inv w m Hload) as [configPath [Hpath Hglobs]].
  destruct (getChangedFiles_ok w n f Hfiles) as [Hfv Hft].
  unfold run_try.
  rewrite trace_bindX, value_call, trace_call, Htoken.
  rewrite trace_bindX, value_call, trace_call, Hpath.
  rewrite trace_bindX, value_call, trace_call, Hsync.
  cbv zeta. unfold getPrNumber. rewrite Hpr.
  destruct (Z.eqb_spec n 0) as [?|_]; [contradiction|].
  rewrite trace_bindX, value_call, trace_call, Hocto.
  rewrite trace_bindX, value_call, trace_call, Hpull.
  rewrite trace_bindX, value_lift, trace_lift.
  rewrite trace_bindX, Hfv, Hft.
  rewrite trace_bindX, Hglobs, getLabelGlobs_trace.
  rewrite trace_bindX, value_lift, trace_lift.
  rewrite trace_bindX.
  cbn [app debug emit trace snd]. do 2 f_equal.
  do 2 f_equal.
  set (ls := value (run_loop w f p m [] [])).
  destruct (Nat.ltb 0 (length (fst ls))).
  - unfold addLabels. rewrite trace_bindX, value_bindX, value_lift, trace_lift.
    rewrite value_call, trace_call, app_nil_r. cbn [emit trace snd].
    cbn [app]. f_equal. destruct (issues_addLabels w n (fst ls)); [|reflexivity].
    destruct (truthy s && _); reflexivity.
  - cbn [retX ret value trace fst snd app].
    destruct (truthy s && _); reflexivity.
Qed.

(** With [sync-labels] set, a carried label whose rule set does not match
    is removed, provided the [addLabels] request does not fail. *)
Lemma removal_requested_under_sync w n s p f m label globs :
  reachesEvaluation w n s p f m ->
  truthy s = true ->
  In label p ->
  In (label, globs) m ->
  rulesMatch w f globs = false ->
  (forall labels, issues_addLabels w n labels = Ok tt) ->
  In (RemoveLabel n label) (trace (run w)).
Proof.
  intros Hreach Hsync Hcarried Hentry Hnomatch Hadd.
  unfold run. rewrite trace_bind, in_app_iff. left.
  rewrite (run_try_reached w n s p f m Hreach).
  assert (Hcollected : In label (snd (value (run_loop w f p m [] [])))).
  { apply run_loop_collects. right. exists globs. auto. }
  right. right. rewrite !in_app_iff. right. right. right.
  rewrite Hadd.
  destruct (Nat.ltb 0 (length (fst (value (run_loop w f p m [] []))))).
  - rewrite Hsync. cbn [andb].
    destruct (snd (value (run_loop w f p m [] []))) as [|l0 ls] eqn:Hls;
      [destruct Hcollected|].
    cbn [length Nat.eqb negb]. apply removeLabels_requests_all. exact Hcollected.
  - rewrite Hsync. cbn [andb].
    destruct (snd (value (run_loop w f p m [] []))) as [|l0 ls] eqn:Hls;
      [destruct Hcollected|].
    cbn [length Nat.eqb negb]. apply removeLabels_requests_all. exact Hcollected.
Qed.

Lemma wellShaped_dec configObject label :
  {wellShaped configObject label} + {~ wellShaped configObject label}.
Proof.
  unfold wellShaped. destruct (prop configObject label) as [v|] eqn:Hp.
  - destruct (loadedAs v) as [globs|] eqn:Hl.
    + left. exists v, globs. split; [reflexivity | exact Hl].
    + right. intros [v' [globs [[= <-] Hl']]]. congruence.
  - right. intros [v [globs [[=] _]]].
Qed.

(** A list with an ill-shaped label splits at the first one. *)
Lemma first_ill_shaped configObject labels :
  (exists label, In label labels /\ ~ wellShaped configObject label) ->
  exists pre label rest,
    labels = pre ++ label :: rest
    /\ (forall l, In l pre -> wellShaped configObject l)
    /\ ~ wellShaped configObject label.
Proof.
  induction labels as [|l0 labels IH]; intros [label [Hin Hbad]];
    [destruct Hin|].
  destruct (wellShaped_dec configObject l0) as [Hws|Hnws].
  - destruct Hin as [<- | Hin]; [contradiction|].
    destruct IH as (pre & label' & rest & -> & Hpre & Hbad').
    { exists label. split; assumption. }
    exists (l0 :: pre), label', rest. split; [reflexivity|].
    split; [|exact Hbad'].
    intros l [<- | Hl]; [exact Hws | apply Hpre; exact Hl].
  - exists [], l0, labels. split; [reflexivity|].
    split; [intros l [] | exact Hnws].
Qed.

Lemma loadedLabelGlobs_NoDup w m :
  loadedLabelGlobs w = Some m -> NoDup (map fst m).
Proof.
  unfold loadedLabelGlobs. destruct (configurationOf w) as [o|]; [|discriminate].
  destruct (getLabelGlobMapFromObject o) as [m'|] eqn:Hm; [|discriminate].
  intros [= <-]. unfold getLabelGlobMapFromObject in Hm.
  apply (getLabelGlobMapFromObject_NoDup _ _ _ _ Hm). constructor.
Qed.

(* ===================================================================== *)
(** * The loader and the driver against their specification *)
(* ===================================================================== *)

(** C8.  [getLabelGlobMapFromObject], on every configuration object:
    when every label has a string or an array as its value, it returns
    the map that sends each label with a string value to the one-element
    sequence of that string and each label with an array value to that
    array; when some label has a value that is neither, it throws, at the
    first such label in enumeration order, an error whose message is
    "found unexpected type for label <label> (should be string or array
    of globs)".  A run whose configuration fails to load this way
    constructs and runs no matcher and changes no label. *)
Theorem getLabelGlobMapFromObject_shapes :
  forall configObject : ConfigObject,
    ((forall label, In label (keys configObject) ->
        wellShaped configObject label) ->
     exists m,
       getLabelGlobMapFromObject configObject = Ok m
       /\ (forall label s, prop configObject label = Some (VString s) ->
             Map_get m label = Some [OfString s])
       /\ (forall label a, prop configObject label = Some (VArray a) ->
             Map_get m label = Some a)
       /\ (forall label, prop configObject label = None ->
             Map_get m label = None))
    /\ (forall pre label rest,
          keys configObject = pre ++ label :: rest ->
          (forall l, In l pre -> wellShaped configObject l) ->
          ~ wellShaped configObject label ->
          getLabelGlobMapFromObject configObject =
          Throw ("found unexpected type for label " ^^ label
                 ^^ " (should be string or array of globs)"))
    /\ ((exists label, In label (keys configObject)
                       /\ ~ wellShaped configObject label) ->
        exists label,
          In label (keys configObject) /\ ~ wellShaped configObject label
          /\ getLabelGlobMapFromObject configObject =
             Throw ("found unexpected type for label " ^^ label
                    ^^ " (should be string or array of globs)"))
    /\ (forall w message,
          configurationOf w = Some configObject ->
          getLabelGlobMapFromObject configObject = Throw message ->
          forall e, In e (trace (run w)) ->
            isMatcherEvent e = false /\ isMutation e = false).
Proof.
  intros configObject. split; [|split; [|split]].
  - intros Hws.
    destruct (getLabelGlobMapFromObject_loop_ok configObject
                (keys configObject) Hws []) as [m [Hm [_ Hget]]].
    exists m. split; [exact Hm|].
    assert (Hkey : forall label v, prop configObject label = Some v ->
                     Map_get m label = loadedAs v).
    { intros label v Hp. rewrite Hget.
      destruct (in_dec string_dec label (keys configObject)) as [_|Hn].
      - rewrite Hp. reflexivity.
      - contradiction Hn. apply (prop_Some_In _ _ _ Hp). }
    split; [|split].
    + intros label s Hp. apply (Hkey _ _ Hp).
    + intros label a Hp. apply (Hkey _ _ Hp).
    + intros label Hp. rewrite Hget.
      destruct (in_dec string_dec label (keys configObject)) as [Hin|_].
      * rewrite Hp. reflexivity.
      * reflexivity.
  - intros pre label rest Hkeys Hpre Hbad. unfold getLabelGlobMapFromObject.
    rewrite Hkeys.
    apply (getLabelGlobMapFromObject_loop_throw _ _ _ _ Hpre Hbad).
  - intros Hex.
    destruct (first_ill_shaped configObject (keys configObject) Hex)
      as (pre & label & rest & Hkeys & Hpre & Hbad).
    exists label. split; [|split; [exact Hbad|]].
    + rewrite Hkeys. apply in_app_iff. right. now left.
    + unfold getLabelGlobMapFromObject. rewrite Hkeys.
      apply (getLabelGlobMapFromObject_loop_throw _ _ _ _ Hpre Hbad).
  - intros w message Hcfg Hthrow e Hin.
    destruct (isMatcherEvent e) eqn:Hm.
    + destruct (run_effects_after_loading w e Hin (or_introl Hm))
        as (n & s & p & f & m & Hreach).
      destruct Hreach as (_ & _ & _ & _ & _ & _ & Hload).
      unfold loadedLabelGlobs in Hload. rewrite Hcfg, Hthrow in Hload.
      discriminate.
    + destruct (isMutation e) eqn:Hu; [|split; reflexivity].
      destruct (run_effects_after_loading w e Hin (or_intror Hu))
        as (n & s & p & f & m & Hreach).
      destruct Hreach as (_ & _ & _ & _ & _ & _ & Hload).
      unfold loadedLabelGlobs in Hload. rewrite Hcfg, Hthrow in Hload.
      discriminate.
Qed.


(* ===================================================================== *)
(** * Concrete runs *)
(* ===================================================================== *)

(** The six cases of [__tests__/labeler.test.ts]. *)
Example test_all_txt_true :
  refCheck ["foo.txt"; "bar.txt"] [allOf ["*.txt"]] = true.
Proof. reflexivity. Qed.

Example test_all_txt_false :
  refCheck ["foo.txt"; "bar.docx"] [allOf ["*.txt"]] = false.
Proof. reflexivity. Qed.

Example test_all_or_true :
  refCheck ["pkg/modules/a/foo.txt"; "go.mod"]
    [allRule {| and_ := None;
                or_ := Some ["pkg/modules/a/**"; "go.mod"; "go.sum"] |}]
  = true.
Proof. reflexivity. Qed.

Example test_all_or_false :
  refCheck ["pkg/modules/b/foo.txt"; "go.mod"]
    [allRule {| and_ := None;
                or_ := Some ["pkg/modules/a/**"; "go.mod"; "go.sum"] |}]
  = false.
Proof. reflexivity. Qed.

Example test_any_txt_true :
  refCheck ["foo.txt"; "bar.docx"] [anyOf ["*.txt"]] = true.
Proof. reflexivity. Qed.

Example test_any_txt_false :
  refCheck ["foo.docx"; "bar.docx"] [anyOf ["*.txt"]] = false.
Proof. reflexivity. Qed.

(** Section 8 of the specification: a list of [.md] files only fails
    [all: ["!*.md"]]. *)
Example test_negated_all_md :
  refCheck ["README.md"; "CHANGELOG.md"] [allOf ["!*.md"]] = false
  /\ refCheck ["main.ts"; "util.ts"] [allOf ["!*.md"]] = true.
Proof. split; reflexivity. Qed.

(** A malformed configuration fails the run before the loop starts. *)
Example malformed_run_trace :
  trace (run (exampleRun "true" ["docs"] ["src/a.ts"] malformedConfig)) =
  [Debug "fetching changed files for pr #7";
   Debug "found changed files:";
   Debug "  src/a.ts";
   CoreError (unexpectedType "priority");
   SetFailed (unexpectedType "priority")].
Proof. reflexivity. Qed.

(** [!!s] is [true] for every non-empty input, the string [false]
    included. *)
Example truthy_of_false_string : truthy "false" = true.
Proof. reflexivity. Qed.

Example truthy_of_absent_input : truthy EmptyString = false.
Proof. reflexivity. Qed.

(** Three entries, the second matches: the third is not evaluated. *)
Lemma checkGlobs_is_ordered_disjunction_witness :
  let files := ["foo.txt"] in
  let globs := [OfString "*.md"; OfString "*.txt"; OfString "*.docx"] in
  value (checkGlobs refMinimatch refStringify files globs) = true
  /\ trace (checkGlobs refMinimatch refStringify files globs) =
     flat_map (fun g => trace (checkEntry refMinimatch refStringify files g))
       [OfString "*.md"; OfString "*.txt"].
Proof.
  intros files globs.
  destruct (checkGlobs_is_ordered_disjunction refMinimatch refStringify
              files globs) as (Hv & _ & Hfirst & _).
  split.
  - rewrite Hv. reflexivity.
  - apply (Hfirst [OfString "*.md"] (OfString "*.txt") [OfString "*.docx"]).
    + reflexivity.
    + intros e [<- | []]. reflexivity.
    + reflexivity.
Defined.

(** A label mapped to a number: the loader names it, and the run neither
    builds a matcher nor touches a label. *)
Lemma getLabelGlobMapFromObject_shapes_witness :
  getLabelGlobMapFromObject malformedConfig =
  Throw "found unexpected type for label priority (should be string or array of globs)"
  /\ forall e,
       In e (trace (run (exampleRun "true" ["docs"] ["src/a.ts"]
                          malformedConfig))) ->
       isMatcherEvent e = false /\ isMutation e = false.
Proof.
  destruct (getLabelGlobMapFromObject_shapes malformedConfig)
    as (_ & Hthrow & _ & Hrun).
  assert (H : getLabelGlobMapFromObject malformedConfig =
              Throw "found unexpected type for label priority (should be string or array of globs)").
  { apply (Hthrow ["docs"] "priority" ["source"]).
    - reflexivity.
    - intros l [<- | []]. exists (VString "*.md"), [OfString "*.md"].
      split; reflexivity.
    - intros [v [globs [Hp Hl]]]. vm_compute in Hp. injection Hp as <-.
      discriminate Hl. }
  split; [exact H|].
  apply (Hrun (exampleRun "true" ["docs"] ["src/a.ts"] malformedConfig) _
           eq_refl H).
Defined.



(** The same run without [sync-labels]: nothing is removed. *)
Example no_removal_without_sync :
  forall n label,
    ~ In (RemoveLabel n label)
        (trace (run (exampleRun EmptyString ["docs"] ["src/a.ts"]
                       exampleConfig))).
Proof.
  intros n label H. vm_compute in H.
  repeat (destruct H as [H | H]; [discriminate|]). exact H.
Qed.

(* ===================================================================== *)
(** * More on the evaluator and the loader *)
(* ===================================================================== *)


Lemma forallb_pointwise {A} (p q : A -> bool) (l : list A) :
  (forall a, p a = q a) -> forallb p l = forallb q l.
Proof.
  intros H. induction l as [|a l IH]; [reflexivity|].
  cbn [forallb]. rewrite H, IH. reflexivity.
Qed.

Lemma M_pair_eq {A} (m1 m2 : M A) :
  value m1 = value m2 -> trace m1 = trace m2 -> m1 = m2.
Proof.
  destruct m1, m2. unfold value, trace. cbn [fst snd].
  intros -> ->. reflexivity.
Qed.

Lemma forallb_same_elements {A} (p : A -> bool) (l l' : list A) :
  (forall a, In a l <-> In a l') -> forallb p l = forallb p l'.
Proof.
  intros H. destruct (forallb p l) eqn:E; symmetry.
  - apply forallb_forall. intros a Ha. apply H in Ha.
    apply (proj1 (forallb_forall p l) E a Ha).
  - destruct (forallb p l') eqn:E'; [|reflexivity].
    rewrite <- E. symmetry. apply forallb_forall. intros a Ha. apply H in Ha.
    apply (proj1 (forallb_forall p l') E' a Ha).
Qed.

Lemma existsb_same_elements {A} (p : A -> bool) (l l' : list A) :
  (forall a, In a l <-> In a l') -> existsb p l = existsb p l'.
Proof.
  intros H. destruct (existsb p l) eqn:E; symmetry.
  - apply existsb_exists. apply existsb_exists in E.
    destruct E as [a [Ha Hp]]. exists a. split; [apply H; exact Ha | exact Hp].
  - destruct (existsb p l') eqn:E'; [|reflexivity].
    rewrite <- E. symmetry. apply existsb_exists. apply existsb_exists in E'.
    destruct E' as [a [Ha Hp]]. exists a. split; [apply H; exact Ha | exact Hp].
Qed.

Lemma isMatchAll_loop_stops file pre m post :
  (forall x, In x pre -> match_ x file = true) ->
  match_ m file = false ->
  isMatchAll_loop file (pre ++ m :: post) = isMatchAll_loop file (pre ++ [m]).
Proof.
  intros Hpre Hm. induction pre as [|x pre IH]; cbn [app isMatchAll_loop].
  - apply M_pair_eq.
    + rewrite !value_bind, !callMatch_value, Hm. reflexivity.
    + rewrite !trace_bind, ?value_bind, !callMatch_value, Hm. reflexivity.
  - assert (Hx : match_ x file = true) by (apply Hpre; now left).
    assert (IH' := IH (fun y Hy => Hpre y (or_intror Hy))).
    apply M_pair_eq.
    + rewrite !value_bind, !callMatch_value, Hx. cbn [negb]. now rewrite IH'.
    + rewrite !trace_bind, ?value_bind, !callMatch_value, Hx. cbn [negb].
      now rewrite IH'.
Qed.

Lemma isMatchAny_loop_stops file pre m post :
  (forall x, In x pre -> match_ x file = false) ->
  match_ m file = true ->
  isMatchAny_loop file (pre ++ m :: post) = isMatchAny_loop file (pre ++ [m]).
Proof.
  intros Hpre Hm. induction pre as [|x pre IH]; cbn [app isMatchAny_loop].
  - apply M_pair_eq.
    + rewrite !value_bind, !callMatch_value, Hm. reflexivity.
    + rewrite !trace_bind, ?value_bind, !callMatch_value, Hm. reflexivity.
  - assert (Hx : match_ x file = false) by (apply Hpre; now left).
    assert (IH' := IH (fun y Hy => Hpre y (or_intror Hy))).
    apply M_pair_eq.
    + rewrite !value_bind, !callMatch_value, Hx. now rewrite IH'.
    + rewrite !trace_bind, ?value_bind, !callMatch_value, Hx.
      now rewrite IH'.
Qed.

(** X1.  [checkMatch] is the conjunction of its [all] part and its [any]
    part, an absent part counting as [true]: a rule with neither key
    matches every list of changed files without logging anything.  When
    the [all] part fails the [any] part is not evaluated: the trace ends
    with the trace of [checkAll], and no matcher of [any] is built. *)
Theorem checkMatch_all_then_any :
  forall (Minimatch : string -> IMinimatch) (changedFiles : list string)
         (matchConfig : MatchConfig),
    let part check field :=
      match field with
      | Some config =>
          let ms := value (toMatchers Minimatch config) in
          value (check changedFiles (fst ms) (snd ms))
      | None => true
      end in
    value (checkMatch Minimatch changedFiles matchConfig)
    = part checkAll (all matchConfig) && part checkAny (any matchConfig)
    /\ (all matchConfig = None -> any matchConfig = None ->
        checkMatch Minimatch changedFiles matchConfig = ret true)
    /\ (forall config,
          all matchConfig = Some config ->
          part checkAll (all matchConfig) = false ->
          trace (checkMatch Minimatch changedFiles matchConfig) =
          trace (toMatchers Minimatch config)
          ++ trace (checkAll changedFiles
                      (fst (value (toMatchers Minimatch config)))
                      (snd (value (toMatchers Minimatch config))))).
Proof.
  intros Minimatch changedFiles matchConfig part. split; [|split].
  - rewrite checkMatch_value, checkMatch_any_value. reflexivity.
  - intros Hall Hany. unfold checkMatch, checkMatch_any.
    rewrite Hall, Hany. reflexivity.
  - intros config Hall Hpart. unfold part in Hpart. rewrite Hall in Hpart.
    cbv zeta in Hpart. unfold checkMatch. rewrite Hall.
    rewrite !trace_bind, ?value_bind, Hpart. cbn [negb trace ret snd].
    rewrite app_nil_r. reflexivity.
Qed.

(** X2.  A rule [{ any: { and, or } }] matches exactly when some changed
    file matches every pattern of [and], when present, and at least one
    pattern of [or], when present and not empty. *)
Theorem any_rule_and_or :
  forall (Minimatch : string -> IMinimatch)
         (changedFiles : list string) (r : MatchRule),
    value (checkMatch Minimatch changedFiles
             {| all := None; any := Some (Rule r) |}) = true
    <-> exists file,
          In file changedFiles
          /\ (forall l, and_ r = Some l ->
                forall glob, In glob l -> match_ (Minimatch glob) file = true)
          /\ (forall l, or_ r = Some l -> l <> [] ->
                exists glob, In glob l /\ match_ (Minimatch glob) file = true).
Proof.
  intros Minimatch changedFiles r.
  rewrite any_Rule_value, existsb_exists. split.
  - intros [file [Hf H]]. apply andb_true_iff in H. destruct H as [Ha Ho].
    exists file. split; [exact Hf|]. split.
    + apply and_stage_iff. exact Ha.
    + apply or_stage_iff. exact Ho.
  - intros [file [Hf [Ha Ho]]]. exists file. split; [exact Hf|].
    apply andb_true_iff. split.
    + apply and_stage_iff. exact Ha.
    + apply or_stage_iff. exact Ho.
Qed.

(** X3.  [isMatchAll] returns [true] exactly when the file passes every
    matcher, and it stops at the first matcher the file fails: the
    matchers after it are neither logged nor run. *)
Theorem isMatchAll_stops_at_first_failure :
  forall (file : string) (matchers : list IMinimatch),
    (value (isMatchAll file matchers) = true
     <-> forall m, In m matchers -> match_ m file = true)
    /\ (forall pre m post,
          matchers = pre ++ m :: post ->
          (forall x, In x pre -> match_ x file = true) ->
          match_ m file = false ->
          isMatchAll file matchers = isMatchAll file (pre ++ [m])).
Proof.
  intros file matchers. split.
  - rewrite isMatchAll_value. unfold matchesAll. apply forallb_forall.
  - intros pre m post -> Hpre Hm. unfold isMatchAll.
    rewrite (isMatchAll_loop_stops file pre m post Hpre Hm). reflexivity.
Qed.

(** X4.  [isMatchAny] returns [true] exactly when the matcher list is
    empty or the file passes one of the matchers, and it stops at the
    first matcher the file passes: the matchers after it are neither
    logged nor run. *)
Theorem isMatchAny_stops_at_first_match :
  forall (file : string) (matchers : list IMinimatch),
    (value (isMatchAny file matchers) = true
     <-> matchers = [] \/ exists m, In m matchers /\ match_ m file = true)
    /\ (forall pre m post,
          matchers = pre ++ m :: post ->
          (forall x, In x pre -> match_ x file = false) ->
          match_ m file = true ->
          isMatchAny file matchers = isMatchAny file (pre ++ [m])).
Proof.
  intros file matchers. split.
  - rewrite isMatchAny_value. destruct matchers as [|m0 rest].
    + split; [now left | reflexivity].
    + unfold matchesSome. rewrite existsb_exists. split.
      * intros H. now right.
      * intros [H | H]; [discriminate | exact H].
  - intros pre m post -> Hpre Hm. unfold isMatchAny.
    assert (Hlen : forall tl, Nat.eqb (length (pre ++ m :: tl)) 0 = false).
    { intros tl. destruct pre; reflexivity. }
    rewrite (Hlen post). change [m] with (m :: []). rewrite (Hlen []).
    rewrite (isMatchAny_loop_stops file pre m post Hpre Hm). reflexivity.
Qed.

(** X5.  Over two lists of changed files put together, [checkAll] is the
    conjunction and [checkAny] the disjunction of what they return on
    each list. *)
Theorem checkAll_checkAny_over_appended_files :
  forall (files1 files2 : list string) (matcherAll matcherAny : list IMinimatch),
    value (checkAll (files1 ++ files2) matcherAll matcherAny)
    = value (checkAll files1 matcherAll matcherAny)
      && value (checkAll files2 matcherAll matcherAny)
    /\ value (checkAny (files1 ++ files2) matcherAll matcherAny)
       = value (checkAny files1 matcherAll matcherAny)
         || value (checkAny files2 matcherAll matcherAny).
Proof.
  intros files1 files2 matcherAll matcherAny. split.
  - rewrite !checkAll_value, !forallb_app.
    destruct (forallb _ files1), (forallb _ files2), (forallb _ files1),
      (forallb _ files2); reflexivity.
  - rewrite !checkAny_value. apply existsb_app.
Qed.

Lemma checkGlobs_app_false Minimatch JSON_stringify files globs1 globs2 :
  value (checkGlobs Minimatch JSON_stringify files globs1) = false ->
  trace (checkGlobs Minimatch JSON_stringify files (globs1 ++ globs2)) =
  trace (checkGlobs Minimatch JSON_stringify files globs1)
  ++ trace (checkGlobs Minimatch JSON_stringify files globs2).
Proof.
  induction globs1 as [|g rest IH]; intros H; [reflexivity|].
  cbn [app checkGlobs] in *. rewrite value_bind in H.
  rewrite !trace_bind.
  destruct (value (checkEntry Minimatch JSON_stringify files g));
    [discriminate|].
  rewrite (IH H). apply app_assoc.
Qed.

Lemma checkGlobs_app_true Minimatch JSON_stringify files globs1 globs2 :
  value (checkGlobs Minimatch JSON_stringify files globs1) = true ->
  checkGlobs Minimatch JSON_stringify files (globs1 ++ globs2) =
  checkGlobs Minimatch JSON_stringify files globs1.
Proof.
  induction globs1 as [|g rest IH]; intros H; [discriminate|].
  cbn [app checkGlobs] in *. rewrite value_bind in H.
  apply M_pair_eq.
  - rewrite !value_bind.
    destruct (value (checkEntry Minimatch JSON_stringify files g));
      [reflexivity | now rewrite (IH H)].
  - rewrite !trace_bind.
    destruct (value (checkEntry Minimatch JSON_stringify files g));
      [reflexivity | now rewrite (IH H)].
Qed.

(** X6.  Over two sequences of entries put together, [checkGlobs]
    returns the disjunction of what it returns on each.  When the first
    sequence matches, the second is not evaluated at all; when it does
    not, the trace is the trace of the first followed by the trace of the
    second. *)
Theorem checkGlobs_over_appended_entries :
  forall (Minimatch : string -> IMinimatch)
         (JSON_stringify : StringOrMatchConfig -> string)
         (changedFiles : list string) (globs1 globs2 : GlobalMatchConfig),
    let check := checkGlobs Minimatch JSON_stringify changedFiles in
    value (check (globs1 ++ globs2))
    = value (check globs1) || value (check globs2)
    /\ (value (check globs1) = true -> check (globs1 ++ globs2) = check globs1)
    /\ (value (check globs1) = false ->
        trace (check (globs1 ++ globs2))
        = trace (check globs1) ++ trace (check globs2)).
Proof.
  intros Minimatch JSON_stringify changedFiles globs1 globs2 check.
  split; [|split].
  - unfold check. rewrite !checkGlobs_value. apply existsb_app.
  - apply checkGlobs_app_true.
  - apply checkGlobs_app_false.
Qed.

Lemma checkMatch_same_files Minimatch files files' matchConfig :
  (forall f, In f files <-> In f files') ->
  value (checkMatch Minimatch files matchConfig)
  = value (checkMatch Minimatch files' matchConfig).
Proof.
  intros H. rewrite !checkMatch_value, !checkMatch_any_value.
  f_equal.
  - destruct (all matchConfig) as [c|]; [|reflexivity]. cbv zeta.
    rewrite !checkAll_value. f_equal; apply forallb_same_elements; exact H.
  - destruct (any matchConfig) as [c|]; [|reflexivity]. cbv zeta.
    rewrite !checkAny_value. apply existsb_same_elements. exact H.
Qed.

(** X7.  The boolean [checkGlobs] returns depends only on which files
    changed: two lists with the same elements, in any order and with any
    repetitions, give the same result. *)
Theorem checkGlobs_ignores_order_and_duplicates_of_files :
  forall (Minimatch : string -> IMinimatch)
         (JSON_stringify : StringOrMatchConfig -> string)
         (changedFiles changedFiles' : list string) (globs : GlobalMatchConfig),
    (forall file, In file changedFiles <-> In file changedFiles') ->
    value (checkGlobs Minimatch JSON_stringify changedFiles globs)
    = value (checkGlobs Minimatch JSON_stringify changedFiles' globs).
Proof.
  intros Minimatch JSON_stringify changedFiles changedFiles' globs H.
  rewrite !checkGlobs_value. apply existsb_pointwise. intros g.
  apply checkMatch_same_files. exact H.
Qed.

Lemma checkGlobs_ignores_order_and_duplicates_of_files_witness :
  value (checkGlobs refMinimatch refStringify
           ["a.txt"; "b.md"; "a.txt"] [allOf ["*.txt"]; OfString "*.md"])
  = value (checkGlobs refMinimatch refStringify
             ["b.md"; "a.txt"] [allOf ["*.txt"]; OfString "*.md"]).
Proof.
  apply (checkGlobs_ignores_order_and_duplicates_of_files
           refMinimatch refStringify).
  intros file. cbn [In]. tauto.
Defined.

Lemma matchesAll_same_elements file (ms ms' : list IMinimatch) :
  (forall m, In m ms <-> In m ms') -> matchesAll file ms = matchesAll file ms'.
Proof. apply forallb_same_elements. Qed.

Lemma map_same_elements {A B} (f : A -> B) (l l' : list A) :
  (forall a, In a l <-> In a l') ->
  forall b, In b (map f l) <-> In b (map f l').
Proof.
  intros H b. rewrite !in_map_iff. split; intros [a [E Ha]]; exists a;
    (split; [exact E | apply H; exact Ha]).
Qed.

(** X8.  The result of a plain-list rule, [{ all: L }] or [{ any: L }],
    depends only on which globs are listed: two lists with the same
    elements, in any order and with any repetitions, give the same
    result. *)
Theorem plain_list_ignores_order_and_duplicates_of_globs :
  forall (Minimatch : string -> IMinimatch) (changedFiles : list string)
         (L L' : list string),
    (forall glob, In glob L <-> In glob L') ->
    value (checkMatch Minimatch changedFiles
             {| all := Some (Globs L); any := None |})
    = value (checkMatch Minimatch changedFiles
               {| all := Some (Globs L'); any := None |})
    /\ value (checkMatch Minimatch changedFiles
                {| all := None; any := Some (Globs L) |})
       = value (checkMatch Minimatch changedFiles
                  {| all := None; any := Some (Globs L') |}).
Proof.
  intros Minimatch changedFiles L L' H.
  rewrite !all_Globs_value, !any_Globs_value. split.
  - apply forallb_pointwise; intros f. apply matchesAll_same_elements.
    apply map_same_elements. exact H.
  - apply existsb_pointwise. intros f. apply matchesAll_same_elements.
    apply map_same_elements. exact H.
Qed.

Lemma plain_list_ignores_order_and_duplicates_of_globs_witness :
  value (checkMatch refMinimatch ["src/a.ts"]
           {| all := Some (Globs ["src/**"; "*/a.ts"; "src/**"]); any := None |})
  = value (checkMatch refMinimatch ["src/a.ts"]
             {| all := Some (Globs ["*/a.ts"; "src/**"]); any := None |}).
Proof.
  apply (plain_list_ignores_order_and_duplicates_of_globs refMinimatch).
  intros glob. cbn [In]. tauto.
Defined.

(** X9.  [checkGlobs] does nothing but write debug lines, build matchers
    and run them: its trace holds no label request, no console line and
    no failure report. *)
Theorem checkGlobs_only_logs_and_matches :
  forall (Minimatch : string -> IMinimatch)
         (JSON_stringify : StringOrMatchConfig -> string)
         (changedFiles : list string) (globs : GlobalMatchConfig),
    Forall (fun e => match e with
                     | Debug _ | NewMinimatch _ | CallMatch _ _ => True
                     | _ => False
                     end)
      (trace (checkGlobs Minimatch JSON_stringify changedFiles globs)).
Proof.
  intros Minimatch JSON_stringify changedFiles globs.
  eapply Forall_impl; [|apply checkGlobs_events].
  intros e He. destruct e; try exact I; discriminate He.
Qed.


Lemma Map_set_fresh m label globs :
  ~ In label (map fst m) ->
  map fst (Map_set m label globs) = map fst m ++ [label].
Proof.
  induction m as [|[k v] rest IH]; cbn [Map_set map fst app In]; intros H.
  - reflexivity.
  - destruct (String.eqb_spec k label) as [->|Hk].
    + contradiction H. now left.
    + cbn [map fst]. rewrite IH; [reflexivity|]. intros Hin. apply H. now right.
Qed.

Lemma getLabelGlobMapFromObject_loop_keys configObject labels :
  forall acc m,
    getLabelGlobMapFromObject_loop configObject labels acc = Ok m ->
    (forall k, In k (map fst m) <-> In k (map fst acc) \/ In k labels)
    /\ (NoDup (map fst acc ++ labels) -> map fst m = map fst acc ++ labels).
Proof.
  induction labels as [|l rest IH]; intros acc m H.
  - injection H as <-. split.
    + intros k. cbn [In]. tauto.
    + intros _. now rewrite app_nil_r.
  - cbn [getLabelGlobMapFromObject_loop] in H.
    destruct (prop configObject l) as [v|]; [|discriminate].
    assert (Hstep : forall globs,
      getLabelGlobMapFromObject_loop configObject rest (Map_set acc l globs)
      = Ok m ->
      (forall k, In k (map fst m) <-> In k (map fst acc) \/ In k (l :: rest))
      /\ (NoDup (map fst acc ++ l :: rest) ->
          map fst m = map fst acc ++ l :: rest)).
    { intros globs Hm. destruct (IH _ _ Hm) as [Hin Hord]. split.
      - intros k. rewrite Hin, Map_set_keys_In. cbn [In].
        split; intros; intuition (subst; auto).
      - intros Hnd.
        assert (Hfresh : ~ In l (map fst acc)).
        { intros Hl. apply NoDup_remove_2 in Hnd. apply Hnd.
          apply in_app_iff. now left. }
        rewrite Hord; rewrite (Map_set_fresh _ _ _ Hfresh).
        + rewrite <- app_assoc. reflexivity.
        + rewrite <- app_assoc. exact Hnd. }
    destruct v; try discriminate; apply (Hstep _ H).
Qed.

Lemma getLabelGlobMapFromObject_Ok_wellShaped configObject m :
  getLabelGlobMapFromObject configObject = Ok m ->
  forall label, In label (keys configObject) -> wellShaped configObject label.
Proof.
  intros Hm label Hin.
  destruct (wellShaped_dec configObject label) as [H|H]; [exact H|].
  destruct (first_ill_shaped configObject (keys configObject))
    as (pre & l & rest & Hkeys & Hpre & Hbad).
  { exists label. split; assumption. }
  unfold getLabelGlobMapFromObject in Hm. rewrite Hkeys in Hm.
  rewrite (getLabelGlobMapFromObject_loop_throw _ _ _ _ Hpre Hbad) in Hm.
  discriminate.
Qed.

Lemma getLabelGlobMapFromObject_Ok_get configObject m :
  getLabelGlobMapFromObject configObject = Ok m ->
  forall label,
    Map_get m label = match prop configObject label with
                      | Some v => loadedAs v
                      | None => None
                      end.
Proof.
  intros Hm label.
  destruct (getLabelGlobMapFromObject_loop_ok configObject (keys configObject)
              (getLabelGlobMapFromObject_Ok_wellShaped _ _ Hm) [])
    as [m' [Hm' [_ Hget]]].
  unfold getLabelGlobMapFromObject in Hm. rewrite Hm in Hm'.
  injection Hm' as <-. rewrite Hget.
  destruct (in_dec string_dec label (keys configObject)) as [_|Hn];
    [reflexivity|].
  destruct (prop configObject label) as [v|] eqn:Hp; [|reflexivity].
  contradiction Hn. apply (prop_Some_In _ _ _ Hp).
Qed.

(** X10.  When [getLabelGlobMapFromObject] returns a map, the map has one
    entry per label, its labels are the keys of the configuration object,
    in the same order when these are distinct, and looking a label up
    gives what the label's value is loaded as. *)
Theorem loaded_map_keeps_labels_and_order :
  forall (configObject : ConfigObject) (m : LabelGlobs),
    getLabelGlobMapFromObject configObject = Ok m ->
    NoDup (map fst m)
    /\ (forall label, In label (map fst m) <-> In label (keys configObject))
    /\ (NoDup (keys configObject) -> map fst m = keys configObject)
    /\ (forall label,
          Map_get m label = match prop configObject label with
                            | Some v => loadedAs v
                            | None => None
                            end).
Proof.
  intros configObject m Hm.
  destruct (getLabelGlobMapFromObject_loop_keys configObject
              (keys configObject) [] m Hm) as [Hin Hord].
  split; [|split; [|split]].
  - apply (getLabelGlobMapFromObject_NoDup _ _ _ _ Hm). constructor.
  - intros label. rewrite Hin. cbn [map In]. tauto.
  - exact Hord.
  - apply getLabelGlobMapFromObject_Ok_get. exact Hm.
Qed.

Lemma loaded_map_keeps_labels_and_order_witness :
  map fst [("docs", [OfString "*.md"]); ("source", [anyOf ["src/**"]])]
  = keys exampleConfig.
Proof.
  destruct (loaded_map_keeps_labels_and_order exampleConfig
              [("docs", [OfString "*.md"]); ("source", [anyOf ["src/**"]])]
              eq_refl) as (_ & _ & Hord & _).
  apply Hord. repeat constructor; cbn [In]; intuition discriminate.
Defined.

(** X11.  A label configured with a single glob string is loaded as a
    rule set that matches exactly when some changed file matches that
    glob. *)
Theorem string_label_matches_some_file :
  forall (configObject : ConfigObject) (m : LabelGlobs) (label s : string),
    getLabelGlobMapFromObject configObject = Ok m ->
    prop configObject label = Some (VString s) ->
    exists globs,
      Map_get m label = Some globs
      /\ forall (Minimatch : string -> IMinimatch)
                (JSON_stringify : StringOrMatchConfig -> string)
                (changedFiles : list string),
           value (checkGlobs Minimatch JSON_stringify changedFiles globs)
           = existsb (fun file => match_ (Minimatch s) file) changedFiles.
Proof.
  intros configObject m label s Hm Hp. exists [OfString s]. split.
  - rewrite (getLabelGlobMapFromObject_Ok_get _ _ Hm), Hp. reflexivity.
  - intros Minimatch JSON_stringify changedFiles.
    rewrite checkGlobs_value. cbn [existsb toMatchConfig].
    rewrite orb_false_r, any_Globs_value. apply existsb_pointwise.
    intros f. cbn [map matchesAll forallb]. apply andb_true_r.
Qed.

Lemma string_label_matches_some_file_witness :
  exists globs,
    Map_get [("docs", [OfString "*.md"]); ("source", [anyOf ["src/**"]])] "docs"
    = Some globs
    /\ forall Minimatch JSON_stringify changedFiles,
         value (checkGlobs Minimatch JSON_stringify changedFiles globs)
         = existsb (fun file => match_ (Minimatch "*.md") file) changedFiles.
Proof.
  apply (string_label_matches_some_file exampleConfig _ "docs" "*.md");
    reflexivity.
Defined.

(* ===================================================================== *)
(** * More on the driver *)
(* ===================================================================== *)


Lemma run_loop_value w files prLabels entries :
  forall labels labelsToRemove,
    value (run_loop w files prLabels entries labels labelsToRemove)
    = (labels ++ labelsToAdd w files entries,
       labelsToRemove ++ labelsToDrop w files prLabels entries).
Proof.
  unfold labelsToAdd, labelsToDrop.
  induction entries as [|[label globs] rest IH]; intros labels rem.
  - cbn. now rewrite !app_nil_r.
  - rewrite run_loop_value_cons. cbn [filter fst snd]. unfold isCarried.
    destruct (rulesMatch w files globs); cbn [negb andb map fst].
    + rewrite IH, <- app_assoc. reflexivity.
    + destruct (find _ prLabels); rewrite IH; [|reflexivity].
      rewrite <- app_assoc. reflexivity.
Qed.

Lemma isCarried_In prLabels label :
  isCarried prLabels label = true <-> In label prLabels.
Proof.
  unfold isCarried. destruct (find _ prLabels) eqn:Hf.
  - split; [intros _; apply (find_carried _ _ _ Hf) | reflexivity].
  - split; [discriminate | intros H; contradiction (find_not_carried _ _ Hf)].
Qed.

Lemma labelsToAdd_In w files m label :
  In label (labelsToAdd w files m) <->
  exists globs, In (label, globs) m /\ rulesMatch w files globs = true.
Proof.
  unfold labelsToAdd. rewrite in_map_iff. split.
  - intros [[l g] [<- H]]. apply filter_In in H. exists g. exact H.
  - intros [g [Hin Hm]]. exists (label, g). split; [reflexivity|].
    apply filter_In. split; assumption.
Qed.

Lemma labelsToDrop_In w files prLabels m label :
  In label (labelsToDrop w files prLabels m) <->
  exists globs, In (label, globs) m /\ rulesMatch w files globs = false
                /\ In label prLabels.
Proof.
  unfold labelsToDrop. rewrite in_map_iff. split.
  - intros [[l g] [<- H]]. apply filter_In in H. destruct H as [Hin H].
    apply andb_true_iff in H. destruct H as [Hn Hc]. cbn [fst snd] in *.
    exists g. split; [exact Hin|]. split.
    + now apply negb_true_iff.
    + apply isCarried_In. exact Hc.
  - intros [g [Hin [Hm Hc]]]. exists (label, g). split; [reflexivity|].
    apply filter_In. split; [exact Hin|]. cbn [fst snd]. rewrite Hm.
    apply isCarried_In in Hc. rewrite Hc. reflexivity.
Qed.

Lemma removeLabels_requests_trace w n labels :
  trace (removeLabels_requests w n labels) = map (RemoveLabel n) labels.
Proof.
  induction labels as [|l rest IH]; [reflexivity|].
  cbn [removeLabels_requests map]. rewrite !trace_bind, IH.
  cbn [trace emit snd app]. f_equal.
  destruct (issues_removeLabel w n l); cbn [trace ret snd]; apply app_nil_r.
Qed.

Lemma removeLabels_requests_value_Ok w n labels :
  value (removeLabels_requests w n labels) = Ok tt <->
  forall l, In l labels -> issues_removeLabel w n l = Ok tt.
Proof.
  induction labels as [|l rest IH]; cbn [removeLabels_requests].
  - split; [intros _ l [] | reflexivity].
  - rewrite !value_bind.
    destruct (issues_removeLabel w n l) as [[]|e] eqn:Hl; cbn [value ret fst].
    + rewrite IH. split.
      * intros H x [<- | Hx]; [exact Hl | apply H; exact Hx].
      * intros H x Hx. apply H. now right.
    + split; [discriminate|]. intros H. rewrite (H l (or_introl eq_refl)) in Hl.
      discriminate.
Qed.

Lemma removeLabels_requests_value_Throw w n labels e :
  value (removeLabels_requests w n labels) = Throw e ->
  exists l, In l labels /\ issues_removeLabel w n l = Throw e.
Proof.
  induction labels as [|l rest IH]; cbn [removeLabels_requests].
  - discriminate.
  - rewrite !value_bind.
    destruct (issues_removeLabel w n l) as [u|e'] eqn:Hl; cbn [value ret fst].
    + intros H. destruct (IH H) as [x [Hx He]]. exists x. split; [now right|exact He].
    + intros [= <-]. exists l. split; [now left | exact Hl].
Qed.

(** X17.  [removeLabels] issues one [removeLabel] request per label, in
    order, whatever the host answers; it returns normally exactly when
    every request succeeds, and an error it throws is the error of one of
    the requests. *)
Theorem removeLabels_requests_every_label :
  forall (w : Collaborators) (prNumber : Z) (labels : list string),
    trace (removeLabels w prNumber labels) = map (RemoveLabel prNumber) labels
    /\ (value (removeLabels w prNumber labels) = Ok tt
        <-> forall l, In l labels -> issues_removeLabel w prNumber l = Ok tt)
    /\ (forall message,
          value (removeLabels w prNumber labels) = Throw message ->
          exists l, In l labels
                    /\ issues_removeLabel w prNumber l = Throw message).
Proof.
  intros w prNumber labels. unfold removeLabels. split; [|split].
  - apply removeLabels_requests_trace.
  - apply removeLabels_requests_value_Ok.
  - intros message. apply removeLabels_requests_value_Throw.
Qed.

Lemma run_try_trace_reached w n s p f m :
  reachesEvaluation w n s p f m ->
  trace (run_try w) =
  Debug ("fetching changed files for pr #" ^^ numberToString n)
  :: Debug "found changed files:"
  :: trace (debugFiles f)
  ++ trace (run_loop w f p m [] [])
  ++ (if Nat.ltb 0 (length (labelsToAdd w f m))
      then [AddLabels n (labelsToAdd w f m)] else [])
  ++ match addOutcome w n (labelsToAdd w f m) with
     | Ok _ =>
         if truthy s && negb (Nat.eqb (length (labelsToDrop w f p m)) 0)
         then map (RemoveLabel n) (labelsToDrop w f p m)
         else []
     | Throw _ => []
     end.
Proof.
  intros Hreach. rewrite (run_try_reached w n s p f m Hreach).
  rewrite run_loop_value. cbn [fst snd app]. unfold addOutcome.
  rewrite removeLabels_requests_trace. reflexivity.
Qed.

Lemma run_try_value_reached w n s p f m :
  reachesEvaluation w n s p f m ->
  value (run_try w) =
  match addOutcome w n (labelsToAdd w f m) with
  | Ok _ =>
      if truthy s && negb (Nat.eqb (length (labelsToDrop w f p m)) 0)
      then value (removeLabels_requests w n (labelsToDrop w f p m))
      else Ok tt
  | Throw e => Throw e
  end.
Proof.
  intros ([token [Htoken Hocto]] & Hsync & Hpr & Hnz & Hpull & Hfiles & Hload).
  destruct (loadedLabelGlobs_inv w m Hload) as [configPath [Hpath Hglobs]].
  destruct (getChangedFiles_ok w n f Hfiles) as [Hfv Hft].
  unfold run_try.
  rewrite value_bindX, value_call, Htoken.
  rewrite value_bindX, value_call, Hpath.
  rewrite value_bindX, value_call, Hsync.
  cbv zeta. unfold getPrNumber. rewrite Hpr.
  destruct (Z.eqb_spec n 0) as [?|_]; [contradiction|].
  rewrite value_bindX, value_call, Hocto.
  rewrite value_bindX, value_call, Hpull.
  rewrite value_bindX, value_lift.
  rewrite value_bindX, Hfv.
  rewrite value_bindX, Hglobs.
  rewrite value_bindX, value_lift.
  rewrite value_bindX, run_loop_value. cbn [fst snd app]. unfold addOutcome.
  destruct (Nat.ltb 0 (length (labelsToAdd w f m))).
  - unfold addLabels. rewrite value_bindX, value_lift, value_call.
    destruct (issues_addLabels w n (labelsToAdd w f m)); [|reflexivity].
    destruct (truthy s && _); reflexivity.
  - cbn [retX ret value fst]. destruct (truthy s && _); reflexivity.
Qed.

Lemma run_trace w :
  trace (run w) =
  trace (run_try w) ++ match value (run_try w) with
                       | Ok _ => []
                       | Throw message => [CoreError message; SetFailed message]
                       end.
Proof.
  unfold run. rewrite trace_bind. f_equal.
  destruct (value (run_try w)); reflexivity.
Qed.

(** Where each event of a run that reached the evaluation comes from. *)
Lemma run_reached_In w n s p f m e :
  reachesEvaluation w n s p f m ->
  In e (trace (run w)) ->
  isEvaluatorEvent e = true
  \/ (e = AddLabels n (labelsToAdd w f m) /\ labelsToAdd w f m <> [])
  \/ (exists l, e = RemoveLabel n l /\ In l (labelsToDrop w f p m)
                /\ truthy s = true
                /\ exists u, addOutcome w n (labelsToAdd w f m) = Ok u)
  \/ (exists message, (e = CoreError message \/ e = SetFailed message)
                      /\ value (run_try w) = Throw message).
Proof.
  intros Hreach. rewrite run_trace, (run_try_trace_reached w n s p f m Hreach).
  rewrite in_app_iff. cbn [In]. rewrite !in_app_iff.
  intros [[<- | [<- | [H | [H | [H | H]]]]] | H].
  - now left.
  - now left.
  - left. apply debugFiles_In in H. destruct H as [msg ->]. reflexivity.
  - left. apply (evaluatorOnly_In _ _ (run_loop_events w f p m [] []) H).
  - right. left. destruct (labelsToAdd w f m) as [|a adds]; [destruct H|].
    cbn [length Nat.ltb Nat.leb] in H. destruct H as [<- | []].
    split; [reflexivity | discriminate].
  - right. right. left.
    destruct (addOutcome w n (labelsToAdd w f m)) as [u|] eqn:Hout;
      [|destruct H].
    destruct (truthy s); [|destruct H]. cbn [andb] in H.
    destruct (negb _); [|destruct H].
    apply in_map_iff in H. destruct H as [l [<- Hl]].
    exists l. repeat split; try assumption. exists u. reflexivity.
  - right. right. right.
    destruct (value (run_try w)) as [u|message]; [destruct H|].
    exists message. split; [|reflexivity].
    destruct H as [<- | [<- | []]]; [now left | now right].
Qed.

Lemma reaches_from_effect w e :
  In e (trace (run w)) -> isMutation e = true ->
  exists n s p f m, reachesEvaluation w n s p f m.
Proof.
  intros Hin Hmut.
  apply (run_effects_after_loading w e Hin (or_intror Hmut)).
Qed.


Lemma removeLabels_requests_no_report w n labels e :
  In e (trace (removeLabels_requests w n labels)) -> isReport e = false.
Proof.
  rewrite removeLabels_requests_trace, in_map_iff.
  intros [l [<- _]]. reflexivity.
Qed.

Lemma evaluator_no_report e : isEvaluatorEvent e = true -> isReport e = false.
Proof. destruct e; intros H; try reflexivity; discriminate H. Qed.

(** The [try] block never reports: only the [catch] clause does. *)
Lemma run_try_no_report w e :
  In e (trace (run_try w)) -> isReport e = false.
Proof.
  intros H. unfold run_try in H.
  stepX H token Htoken; [destruct H|].
  stepX H configPath Hpath; [destruct H|].
  stepX H syncInput Hsync; [destruct H|].
  cbv zeta in H. unfold getPrNumber in H.
  destruct (payload_pull_request w) as [prNumber|].
  2:{ rewrite trace_lift in H. destruct H as [<- | []]. reflexivity. }
  destruct (Z.eqb prNumber 0).
  { rewrite trace_lift in H. destruct H as [<- | []]. reflexivity. }
  stepX H u Hocto; [destruct H|].
  stepX H prLabels Hpull; [destruct H|].
  stepX H u1 Hu. { rewrite trace_lift in H. destruct H as [<- | []]. reflexivity. }
  stepX H files Hfiles.
  { apply getChangedFiles_In in H. destruct H as [msg ->]. reflexivity. }
  stepX H m Hm. { rewrite getLabelGlobs_trace in H. destruct H. }
  stepX H ls Hls.
  { rewrite trace_lift in H. apply evaluator_no_report.
    apply (evaluatorOnly_In _ _ (run_loop_events w files prLabels m [] []) H). }
  stepX H u' Hadd.
  - destruct (Nat.ltb 0 (length (fst ls))); [|destruct H].
    unfold addLabels in H. rewrite trace_bindX, trace_lift, value_lift in H.
    cbn [trace emit call ret snd app In] in H. destruct H as [<- | []].
    reflexivity.
  - destruct (truthy syncInput && _); [|destruct H].
    apply (removeLabels_requests_no_report _ _ _ _ H).
Qed.

(** X12.  When the three inputs are read and the payload has no pull
    request, or one whose number is [0], [run] writes one console line
    and ends normally: it evaluates no rule, builds and runs no matcher,
    writes no debug line, adds and removes no label and reports no
    failure.  (Calls that only read from the host leave no event in the
    trace; the statement is about the events the trace records.) *)
Theorem run_without_pull_request :
  forall (w : Collaborators) (token configPath syncInput : string),
    core_getInput w "repo-token" true = Ok token ->
    core_getInput w "configuration-path" true = Ok configPath ->
    core_getInput w "sync-labels" false = Ok syncInput ->
    payload_pull_request w = None \/ payload_pull_request w = Some 0%Z ->
    run w = (tt, [ConsoleLog noPullRequestLine]).
Proof.
  intros w token configPath syncInput Htoken Hpath Hsync Hpr.
  assert (Htry : run_try w = (Ok tt, [ConsoleLog noPullRequestLine])).
  { unfold run_try, call. rewrite Htoken, Hpath, Hsync. cbv zeta.
    unfold getPrNumber. destruct Hpr as [-> | ->]; reflexivity. }
  unfold run. rewrite Htry. reflexivity.
Qed.

(** X13.  [run] calls [core.setFailed] with a message exactly when the
    [try] block throws an error with that message; the report, a
    [core.error] and a [core.setFailed], then ends the trace.  The [try]
    block itself never reports. *)
Theorem run_reports_what_the_try_block_throws :
  forall (w : Collaborators),
    (forall message,
       In (SetFailed message) (trace (run w))
       <-> value (run_try w) = Throw message)
    /\ (forall message,
          value (run_try w) = Throw message ->
          trace (run w)
          = trace (run_try w) ++ [CoreError message; SetFailed message])
    /\ (forall u, value (run_try w) = Ok u -> trace (run w) = trace (run_try w))
    /\ (forall e, In e (trace (run_try w)) -> isReport e = false).
Proof.
  intros w. split; [|split; [|split]].
  - intros message. rewrite run_trace, in_app_iff. split.
    + intros [H | H].
      * apply run_try_no_report in H. discriminate.
      * destruct (value (run_try w)) as [u|msg]; [destruct H|].
        destruct H as [H | [H | []]]; [discriminate|].
        injection H as ->. reflexivity.
    + intros ->. right. right. now left.
  - intros message H. rewrite run_trace, H. reflexivity.
  - intros u H. rewrite run_trace, H. apply app_nil_r.
  - intros e. apply run_try_no_report.
Qed.

(** X14.  When reading one of the three inputs throws, [run] reports
    that error with [core.error] and [core.setFailed] and does nothing
    else that the trace records: it evaluates no rule, builds and runs no
    matcher, writes no debug line and adds and removes no label. *)
Theorem run_with_unreadable_input :
  forall (w : Collaborators) (message : string),
    core_getInput w "repo-token" true = Throw message
    \/ (exists token,
          core_getInput w "repo-token" true = Ok token
          /\ core_getInput w "configuration-path" true = Throw message)
    \/ (exists token configPath,
          core_getInput w "repo-token" true = Ok token
          /\ core_getInput w "configuration-path" true = Ok configPath
          /\ core_getInput w "sync-labels" false = Throw message) ->
    run w = (tt, [CoreError message; SetFailed message]).
Proof.
  intros w message H.
  assert (Htry : run_try w = (Throw message, [])).
  { unfold run_try, call.
    destruct H as [H | [[token [Ht H]] | [token [configPath [Ht [Hp H]]]]]].
    - rewrite H. reflexivity.
    - rewrite Ht, H. reflexivity.
    - rewrite Ht, Hp, H. reflexivity. }
  unfold run. rewrite Htry. reflexivity.
Qed.

Lemma labelsToAdd_nonempty_ltb (labels : list string) :
  labels <> [] -> Nat.ltb 0 (length labels) = true.
Proof. destruct labels; [intros H; now contradiction H | reflexivity]. Qed.

Lemma reached_keys_NoDup w n s p f m :
  reachesEvaluation w n s p f m -> NoDup (map fst m).
Proof.
  intros (_ & _ & _ & _ & _ & _ & Hload).
  apply (loadedLabelGlobs_NoDup w m Hload).
Qed.

(** X15.  Whenever a run makes an [addLabels] request, the run got as far
    as evaluating the rules, the request is for its pull request, its
    labels are exactly the configured labels whose rule set matches, in
    configuration order, there is at least one, and every [addLabels]
    request of the run is this one. *)
Theorem run_adds_exactly_the_matching_labels :
  forall (w : Collaborators) (n : Z) (labels : list string),
    In (AddLabels n labels) (trace (run w)) ->
    exists syncInput prLabels changedFiles labelGlobs,
      reachesEvaluation w n syncInput prLabels changedFiles labelGlobs
      /\ labels
         = map fst (filter (fun entry =>
                              value (checkGlobs (Minimatch w)
                                       (JSON_stringify w) changedFiles
                                       (snd entry)))
                      labelGlobs)
      /\ labels <> []
      /\ forall n' labels',
           In (AddLabels n' labels') (trace (run w)) ->
           n' = n /\ labels' = labels.
Proof.
  intros w n labels Hin.
  destruct (reaches_from_effect w _ Hin eq_refl)
    as (k & s & p & f & m & Hreach).
  destruct (run_reached_In w k s p f m _ Hreach Hin)
    as [He | [[He Hne] | [[l [He _]] | [msg [[He | He] _]]]]];
    try discriminate.
  injection He as -> ->.
  exists s, p, f, m. split; [exact Hreach|]. split; [reflexivity|].
  split; [exact Hne|].
  intros n' labels' Hin'.
  destruct (run_reached_In w k s p f m _ Hreach Hin')
    as [He | [[He _] | [[l [He _]] | [msg [[He | He] _]]]]];
    try discriminate.
  injection He as -> ->. split; reflexivity.
Qed.

(** X16.  When the [addLabels] request fails, the run stops there: after
    the evaluation the trace holds the request and the report of its
    error, and no label is removed, whatever [sync-labels] says. *)
Theorem run_stops_when_addLabels_fails :
  forall (w : Collaborators) (prNumber : Z) (syncInput : string)
         (prLabels changedFiles : list string) (labelGlobs : LabelGlobs)
         (message : string),
    reachesEvaluation w prNumber syncInput prLabels changedFiles labelGlobs ->
    labelsToAdd w changedFiles labelGlobs <> [] ->
    issues_addLabels w prNumber (labelsToAdd w changedFiles labelGlobs)
    = Throw message ->
    (exists evaluation,
       evaluatorOnly evaluation
       /\ trace (run w)
          = evaluation
            ++ [AddLabels prNumber (labelsToAdd w changedFiles labelGlobs);
                CoreError message; SetFailed message])
    /\ (forall n label, ~ In (RemoveLabel n label) (trace (run w))).
Proof.
  intros w n s p f m message Hreach Hne Hfail.
  assert (Hout : addOutcome w n (labelsToAdd w f m) = Throw message).
  { unfold addOutcome. rewrite (labelsToAdd_nonempty_ltb _ Hne). exact Hfail. }
  split.
  - exists (Debug ("fetching changed files for pr #" ^^ numberToString n)
            :: Debug "found changed files:"
            :: trace (debugFiles f) ++ trace (run_loop w f p m [] [])).
    split.
    + constructor; [reflexivity|]. constructor; [reflexivity|].
      apply Forall_app. split.
      * apply Forall_forall. intros e He. apply debugFiles_In in He.
        destruct He as [msg ->]. reflexivity.
      * apply run_loop_events.
    + rewrite run_trace, (run_try_value_reached w n s p f m Hreach).
      rewrite (run_try_trace_reached w n s p f m Hreach), Hout.
      rewrite (labelsToAdd_nonempty_ltb _ Hne).
      cbn [app]. do 2 f_equal. rewrite <- !app_assoc. reflexivity.
  - intros n' label Hin.
    destruct (run_reached_In w n s p f m _ Hreach Hin)
      as [He | [[He _] | [[l [_ [_ [_ [u Hu]]]]] | [msg [[He | He] _]]]]];
      try discriminate.
    rewrite Hout in Hu. discriminate.
Qed.

(** X18.  No run both adds and removes the same label. *)
Theorem run_never_adds_and_removes_the_same_label :
  forall (w : Collaborators) (n n' : Z) (labels : list string) (label : string),
    In (AddLabels n labels) (trace (run w)) ->
    In label labels ->
    ~ In (RemoveLabel n' label) (trace (run w)).
Proof.
  intros w n n' labels label Hadd Hlabel Hrem.
  destruct (reaches_from_effect w _ Hadd eq_refl)
    as (k & s & p & f & m & Hreach).
  destruct (run_reached_In w k s p f m _ Hreach Hadd)
    as [He | [[He _] | [[l [He _]] | [msg [[He | He] _]]]]];
    try discriminate.
  injection He as -> ->.
  destruct (run_reached_In w k s p f m _ Hreach Hrem)
    as [He | [[He _] | [[l [He [Hl _]]] | [msg [[He | He] _]]]]];
    try discriminate.
  injection He as -> <-.
  apply labelsToAdd_In in Hlabel. destruct Hlabel as [g [Hg Hmatch]].
  apply labelsToDrop_In in Hl. destruct Hl as [g' [Hg' [Hnomatch _]]].
  assert (Hnd := reached_keys_NoDup _ _ _ _ _ _ Hreach).
  assert (E : Some g = Some g').
  { rewrite <- (Map_get_In m label g Hnd Hg).
    apply (Map_get_In m label g' Hnd Hg'). }
  injection E as <-. rewrite Hmatch in Hnomatch. discriminate.
Qed.

(** X19.  A run only adds or removes labels that are keys of the
    configuration it read: a label of the pull request that the
    configuration does not mention is never touched. *)
Theorem run_only_touches_configured_labels :
  forall (w : Collaborators) (n : Z) (label : string),
    In (RemoveLabel n label) (trace (run w))
    \/ (exists labels, In (AddLabels n labels) (trace (run w))
                       /\ In label labels) ->
    exists configObject,
      configurationOf w = Some configObject
      /\ In label (keys configObject).
Proof.
  intros w n label H.
  assert (Hcfg : forall k s p f m g,
            reachesEvaluation w k s p f m -> In (label, g) m ->
            exists configObject,
              configurationOf w = Some configObject
              /\ In label (keys configObject)).
  { intros k s p f m g (_ & _ & _ & _ & _ & _ & Hload) Hg.
    unfold loadedLabelGlobs in Hload.
    destruct (configurationOf w) as [o|]; [|discriminate].
    destruct (getLabelGlobMapFromObject o) as [m'|] eqn:Hm; [|discriminate].
    injection Hload as ->. exists o. split; [reflexivity|].
    destruct (getLabelGlobMapFromObject_loop_keys o (keys o) [] m Hm)
      as [Hin _].
    apply (in_map fst) in Hg. apply Hin in Hg. destruct Hg as [[] | Hg].
    exact Hg. }
  destruct H as [Hrem | [labels [Hadd Hlabel]]].
  - destruct (reaches_from_effect w _ Hrem eq_refl)
      as (k & s & p & f & m & Hreach).
    destruct (run_reached_In w k s p f m _ Hreach Hrem)
      as [He | [[He _] | [[l [He [Hl _]]] | [msg [[He | He] _]]]]];
      try discriminate.
    injection He as -> <-.
    apply labelsToDrop_In in Hl. destruct Hl as [g [Hg _]].
    apply (Hcfg _ _ _ _ _ _ Hreach Hg).
  - destruct (reaches_from_effect w _ Hadd eq_refl)
      as (k & s & p & f & m & Hreach).
    destruct (run_reached_In w k s p f m _ Hreach Hadd)
      as [He | [[He _] | [[l [He _]] | [msg [[He | He] _]]]]];
      try discriminate.
    injection He as -> ->.
    apply labelsToAdd_In in Hlabel. destruct Hlabel as [g [Hg _]].
    apply (Hcfg _ _ _ _ _ _ Hreach Hg).
Qed.

(** A run that reports no failure did not throw in its [try] block. *)
Lemma run_try_Ok_of_no_failure w :
  (forall message, ~ In (SetFailed message) (trace (run w))) ->
  exists u, value (run_try w) = Ok u.
Proof.
  intros Hquiet. destruct (value (run_try w)) as [u|message] eqn:Hv.
  - exists u. reflexivity.
  - contradiction (Hquiet message). rewrite run_trace, Hv.
    apply in_app_iff. right. right. now left.
Qed.

(** X20.  In a run that gets as far as evaluating the rules and reports no
    failure, with [sync-labels] set (a non-empty string), a [removeLabel]
    request is issued for a label exactly when the pull request carries
    the label and the label's rule set does not match. *)
Theorem run_removes_exactly_the_stale_labels :
  forall (w : Collaborators) (prNumber : Z) (syncInput : string)
         (prLabels changedFiles : list string) (labelGlobs : LabelGlobs),
    reachesEvaluation w prNumber syncInput prLabels changedFiles labelGlobs ->
    truthy syncInput = true ->
    (forall message, ~ In (SetFailed message) (trace (run w))) ->
    forall n label,
      In (RemoveLabel n label) (trace (run w))
      <-> n = prNumber
          /\ In label prLabels
          /\ exists globs,
               Map_get labelGlobs label = Some globs
               /\ value (checkGlobs (Minimatch w) (JSON_stringify w)
                           changedFiles globs) = false.
Proof.
  intros w k s p f m Hreach Hsync Hquiet n label.
  assert (Hout : exists u, addOutcome w k (labelsToAdd w f m) = Ok u).
  { destruct (run_try_Ok_of_no_failure w Hquiet) as [u Hu].
    rewrite (run_try_value_reached w k s p f m Hreach) in Hu.
    destruct (addOutcome w k (labelsToAdd w f m)) as [u'|e];
      [exists u'; reflexivity | discriminate]. }
  destruct Hout as [u Hout].
  assert (Hnd := reached_keys_NoDup _ _ _ _ _ _ Hreach).
  split.
  - intros Hin.
    destruct (run_reached_In w k s p f m _ Hreach Hin)
      as [He | [[He _] | [[l [He [Hl _]]] | [msg [[He | He] _]]]]];
      try discriminate.
    injection He as -> <-.
    apply labelsToDrop_In in Hl. destruct Hl as [g [Hg [Hnomatch Hc]]].
    split; [reflexivity|]. split; [exact Hc|]. exists g.
    split; [apply (Map_get_In m _ g Hnd Hg) | exact Hnomatch].
  - intros [-> [Hc [g [Hg Hnomatch]]]].
    assert (Hentry : In (label, g) m).
    { clear - Hg. induction m as [|[k0 v] rest IH]; [discriminate|].
      cbn [Map_get] in Hg. destruct (String.eqb_spec k0 label) as [->|Hk].
      - injection Hg as ->. now left.
      - right. apply IH. exact Hg. }
    assert (Hl : In label (labelsToDrop w f p m)).
    { apply labelsToDrop_In. exists g. repeat split; assumption. }
    rewrite run_trace, (run_try_trace_reached w k s p f m Hreach), Hout, Hsync.
    rewrite in_app_iff. left. right. right. rewrite !in_app_iff.
    right. right. right. cbn [andb].
    destruct (labelsToDrop w f p m) as [|d ds] eqn:Hd; [destruct Hl|].
    cbn [length Nat.eqb negb]. apply in_map. exact Hl.
Qed.

(* ===================================================================== *)
(** * More concrete runs *)
(* ===================================================================== *)


Lemma sourceRun_reaches :
  reachesEvaluation sourceRun 7 "true" ["docs"] ["src/a.ts"] exampleLabelGlobs.
Proof.
  unfold reachesEvaluation. split; [exists "token"; split; reflexivity|].
  repeat split; try reflexivity. discriminate.
Defined.

Lemma sourceRun_failing_reaches :
  reachesEvaluation (withAddLabels sourceRun (Throw "Not Found"))
    7 "true" ["docs"] ["src/a.ts"] exampleLabelGlobs.
Proof.
  unfold reachesEvaluation. split; [exists "token"; split; reflexivity|].
  repeat split; try reflexivity. discriminate.
Defined.

Lemma isMatchAll_stops_at_first_failure_witness :
  isMatchAll "a.ts"
    [refMinimatch "*.ts"; refMinimatch "*.md"; refMinimatch "a.*"]
  = isMatchAll "a.ts" [refMinimatch "*.ts"; refMinimatch "*.md"].
Proof.
  apply (proj2 (isMatchAll_stops_at_first_failure "a.ts" _)
           [refMinimatch "*.ts"] (refMinimatch "*.md") [refMinimatch "a.*"]).
  - reflexivity.
  - intros x [<- | []]. reflexivity.
  - reflexivity.
Defined.

Lemma isMatchAny_stops_at_first_match_witness :
  isMatchAny "a.ts"
    [refMinimatch "*.md"; refMinimatch "*.ts"; refMinimatch "a.*"]
  = isMatchAny "a.ts" [refMinimatch "*.md"; refMinimatch "*.ts"].
Proof.
  apply (proj2 (isMatchAny_stops_at_first_match "a.ts" _)
           [refMinimatch "*.md"] (refMinimatch "*.ts") [refMinimatch "a.*"]).
  - reflexivity.
  - intros x [<- | []]. reflexivity.
  - reflexivity.
Defined.

Lemma checkGlobs_over_appended_entries_witness :
  checkGlobs refMinimatch refStringify ["a.ts"]
    ([OfString "*.md"; OfString "*.ts"] ++ [OfString "a.*"])
  = checkGlobs refMinimatch refStringify ["a.ts"]
      [OfString "*.md"; OfString "*.ts"].
Proof.
  destruct (checkGlobs_over_appended_entries refMinimatch refStringify
              ["a.ts"] [OfString "*.md"; OfString "*.ts"] [OfString "a.*"])
    as (_ & H & _).
  apply H. reflexivity.
Defined.

Lemma run_without_pull_request_witness :
  run (withPayload sourceRun None) = (tt, [ConsoleLog noPullRequestLine])
  /\ run (withPayload sourceRun (Some 0%Z))
     = (tt, [ConsoleLog noPullRequestLine]).
Proof.
  split.
  - apply (run_without_pull_request _ "token" ".github/labeler.yml" "true");
      try reflexivity. left. reflexivity.
  - apply (run_without_pull_request _ "token" ".github/labeler.yml" "true");
      try reflexivity. right. reflexivity.
Defined.

Lemma run_with_unreadable_input_witness :
  run (withInput sourceRun "repo-token"
         (Throw "Input required and not supplied: repo-token"))
  = (tt, [CoreError "Input required and not supplied: repo-token";
          SetFailed "Input required and not supplied: repo-token"]).
Proof.
  apply run_with_unreadable_input. left. reflexivity.
Defined.

Lemma run_adds_exactly_the_matching_labels_witness :
  In (AddLabels 7 ["source"]) (trace (run sourceRun))
  /\ exists syncInput prLabels changedFiles labelGlobs,
       reachesEvaluation sourceRun 7 syncInput prLabels changedFiles
         labelGlobs
       /\ ["source"]
          = map fst (filter (fun entry =>
                               value (checkGlobs (Minimatch sourceRun)
                                        (JSON_stringify sourceRun)
                                        changedFiles (snd entry)))
                       labelGlobs)
       /\ ["source"] <> []
       /\ forall n' labels',
            In (AddLabels n' labels') (trace (run sourceRun)) ->
            n' = 7%Z /\ labels' = ["source"].
Proof.
  assert (Hin : In (AddLabels 7 ["source"]) (trace (run sourceRun))).
  { vm_compute. repeat (first [left; reflexivity | right]). }
  split; [exact Hin|].
  apply (run_adds_exactly_the_matching_labels sourceRun 7 ["source"] Hin).
Defined.

Lemma run_stops_when_addLabels_fails_witness :
  ~ In (RemoveLabel 7 "docs")
      (trace (run (withAddLabels sourceRun (Throw "Not Found")))).
Proof.
  apply (proj2 (run_stops_when_addLabels_fails
                  (withAddLabels sourceRun (Throw "Not Found")) 7 "true"
                  ["docs"] ["src/a.ts"] exampleLabelGlobs "Not Found"
                  sourceRun_failing_reaches ltac:(discriminate) eq_refl)).
Defined.

Lemma run_never_adds_and_removes_the_same_label_witness :
  ~ In (RemoveLabel 7 "source") (trace (run sourceRun)).
Proof.
  apply (run_never_adds_and_removes_the_same_label sourceRun 7 7
           ["source"] "source").
  - vm_compute. repeat (first [left; reflexivity | right]).
  - now left.
Defined.

Lemma run_only_touches_configured_labels_witness :
  exists configObject,
    configurationOf sourceRun = Some configObject
    /\ In "docs" (keys configObject).
Proof.
  apply (run_only_touches_configured_labels sourceRun 7 "docs").
  left. vm_compute. repeat (first [left; reflexivity | right]).
Defined.

Lemma sourceRun_reports_no_failure :
  forall message, ~ In (SetFailed message) (trace (run sourceRun)).
Proof.
  intros message H. vm_compute in H.
  repeat (destruct H as [H | H]; [discriminate|]). exact H.
Qed.

Lemma run_removes_exactly_the_stale_labels_witness :
  In (RemoveLabel 7 "docs") (trace (run sourceRun)).
Proof.
  apply (run_removes_exactly_the_stale_labels sourceRun 7 "true" ["docs"]
           ["src/a.ts"] exampleLabelGlobs sourceRun_reaches eq_refl
           sourceRun_reports_no_failure).
  split; [reflexivity|]. split; [now left|].
  exists [OfString "*.md"]. split; reflexivity.
Defined.
